(** * blackjack-event-bot: the Deposit / WithdrawalProcessed handlers

    A shallow embedding of [src/blackjack-event-bot.js]: the two event
    handlers [handleDeposit] and [handleWithdrawalProcessed], the listeners
    that call them, the mongoose [User] model they talk to and the console
    they write to.

    - A JavaScript string is a [string]; an ethers [BigNumber] is a [Z].
    - The body of an [async function] is a process [Proc]: a tree of the
      console lines it prints and the store queries it awaits, ending in a
      completion (normal, [return], or a thrown error).  [await] turns a
      rejected promise into a throw; [try_catch] is the
      [try { } catch (error) { }] block.
    - The store is any implementation of the three [User] operations the
      handlers call ([UserModel]); [Mongo] is a collection of records with
      a schedule of outages.
    - [run] executes one handler to its end; [deliver_all] handles a
      sequence of events one after the other; [step] lets the handlers of
      several events take turns at their [await]s, as the listeners (which
      do not wait for a handler to finish) allow. *)

From Stdlib Require Import ZArith String Ascii List Lia.
From Stdlib Require Import DecimalString DecimalZ.
From stdpp Require Import base option gmap strings list fin_maps relations.

Local Open Scope Z_scope.
Local Open Scope string_scope.

(* ===================================================================== *)
(** ** Values of the libraries the script uses *)
(* ===================================================================== *)

Module Js.

(** One character of [String.prototype.toLowerCase], on the ASCII range:
    the letters [A]..[Z] (codes 65..90) move to [a]..[z]; every other
    byte stays.  Addresses are [0x] followed by hexadecimal digits. *)
Definition lower_ascii (c : ascii) : ascii :=
  let n := nat_of_ascii c in
  if ((65 <=? n)%nat && (n <=? 90)%nat)%bool
  then ascii_of_nat (n + 32) else c.

Fixpoint toLowerCase (s : string) : string :=
  match s with
  | EmptyString => EmptyString
  | String c rest => String (lower_ascii c) (toLowerCase rest)
  end.

End Js.

Module BigNumber.

(** [bn.toString()]: the decimal digits, with a leading minus sign for a
    negative number. *)
Definition toString (z : Z) : string :=
  NilZero.string_of_int (Z.to_int z).

(** [ethers.BigNumber.from(s)] for a string [s]: an optional minus sign
    followed by at least one decimal digit is read in base ten; anything
    else throws (here [None]).  ethers also reads [0x]-prefixed
    hexadecimal strings; the handlers only ever write decimal strings and
    that form is left out. *)
Definition from (s : string) : option Z :=
  option_map Z.of_int (NilZero.int_of_string s).

End BigNumber.

(* ===================================================================== *)
(** ** Completions, promises and the body of an async function *)
(* ===================================================================== *)

(** What a handler can find thrown in its [try] block. *)
Inductive Error : Type :=
| StoreError                          (* the store rejected the operation *)
| TypeError                           (* a property read on [null] *)
| InvalidBigNumber (value : string).  (* [BigNumber.from] on a bad string *)

(** The state of a settled promise. *)
Inductive Promise (A : Type) : Type :=
| Fulfilled (a : A)
| RejectedWith (e : Error).
Arguments Fulfilled {A} a.
Arguments RejectedWith {A} e.

(** The way a block of statements ends. *)
Inductive Completion (A : Type) : Type :=
| Normal (a : A)
| Return                 (* a [return;] statement was reached *)
| Throw (e : Error).
Arguments Normal {A} a.
Arguments Return {A}.
Arguments Throw {A} e.

Inductive Level : Type := LOG | WARN | ERROR.

(** The lines the handlers print, named after their text.  The template
    strings are kept as constructors with the values they interpolate;
    [weiToEtherString] only formats the amount for the line and is not
    modelled further. *)
Inductive Message : Type :=
| Deposit_event (userAddress : string) (amount : Z)
| WithdrawalProcessed_event (userAddress : string) (amount : Z)
| Updated_user (userAddress : string) (balance : string)
| User_not_found_for_withdrawal (userAddress : string)
| Insufficient_balance_for_user (userAddress : string) (balance : string) (amount : Z)
| Error_processing_Deposit_event (error : Error)
| Error_processing_WithdrawalProcessed_event (error : Error).

(** Modelled from the spec: the mongoose schema [./models/User] is not
    among the sources; the persisted record is
    [{ accountId: lower-case address string, balance:
    unsigned-integer-string }], which the handlers read and write through
    the fields [address] and [balance]. *)
Record User : Type := mkUser { address : string; balance : string }.

(** The three calls the handlers make on the [User] model, indexed by
    what their promise resolves to. *)
Inductive Query : Type -> Type :=
(* User.findOneAndUpdate({address}, {balance}, {upsert: true, new: true}) *)
| FindOneAndUpdate (address balance : string) : Query (option User)
(* User.findOne({address}) *)
| FindOne (address : string) : Query (option User)
(* user.save() *)
| Save (user : User) : Query unit.

(** The body of an async function, up to its end. *)
Inductive Proc (A : Type) : Type :=
| Done (c : Completion A)
| Print (l : Level) (m : Message) (k : Proc A)
| Await {B : Type} (q : Query B) (k : Promise B -> Proc A).
Arguments Done {A} c.
Arguments Print {A} l m k.
Arguments Await {A B} q k.

Fixpoint Proc_bind {A B : Type} (f : A -> Proc B) (m : Proc A) : Proc B :=
  match m with
  | Done (Normal a) => f a
  | Done Return => Done Return
  | Done (Throw e) => Done (Throw e)
  | Print l msg k => Print l msg (Proc_bind f k)
  | Await q k => Await q (fun r => Proc_bind f (k r))
  end.

#[export] Instance Proc_mret : MRet Proc := fun A a => Done (Normal a).
#[export] Instance Proc_mbind : MBind Proc := @Proc_bind.

(** [return;] *)
Definition return_ {A : Type} : Proc A := Done Return.

(** [throw e] *)
Definition throw {A : Type} (e : Error) : Proc A := Done (Throw e).

(** [await q] *)
Definition await {B : Type} (q : Query B) : Proc B :=
  Await q (fun r => match r with
                    | Fulfilled b => Done (Normal b)
                    | RejectedWith e => Done (Throw e)
                    end).

Definition console_log (m : Message) : Proc unit := Print LOG m (Done (Normal tt)).
Definition console_warn (m : Message) : Proc unit := Print WARN m (Done (Normal tt)).
Definition console_error (m : Message) : Proc unit := Print ERROR m (Done (Normal tt)).

(** [try { body } catch (error) { handler }] *)
Fixpoint try_catch {A : Type} (body : Proc A) (handler : Error -> Proc A) : Proc A :=
  match body with
  | Done (Throw e) => handler e
  | Done c => Done c
  | Print l msg k => Print l msg (try_catch k handler)
  | Await q k => Await q (fun r => try_catch (k r) handler)
  end.

(* ===================================================================== *)
(** ** The handlers *)
(* ===================================================================== *)

(** [parseWeiToString] *)
Definition parseWeiToString (weiAmount : Z) : string :=
  BigNumber.toString weiAmount.

(** [user.balance] on the value a query resolved to: a [TypeError] on
    [null]. *)
Definition balance_of (user : option User) : Proc string :=
  match user with
  | Some u => mret (balance u)
  | None => throw TypeError
  end.

(** [ethers.BigNumber.from(s)] inside a body. *)
Definition BigNumber_from (s : string) : Proc Z :=
  match BigNumber.from s with
  | Some z => mret z
  | None => throw (InvalidBigNumber s)
  end.

Definition handleDeposit_try (userAddress : string) (amount : Z) : Proc unit :=
  console_log (Deposit_event userAddress amount) ;;
  user ← await (FindOneAndUpdate (Js.toLowerCase userAddress)
                                 (parseWeiToString amount)) ;
  b ← balance_of user ;
  console_log (Updated_user userAddress b).

Definition handleDeposit (userAddress : string) (amount : Z) : Proc unit :=
  try_catch (handleDeposit_try userAddress amount)
            (fun error => console_error (Error_processing_Deposit_event error)).

Definition handleWithdrawalProcessed_try (userAddress : string) (amount : Z)
  : Proc unit :=
  console_log (WithdrawalProcessed_event userAddress amount) ;;
  user ← await (FindOne (Js.toLowerCase userAddress)) ;
  match user with
  | None => console_warn (User_not_found_for_withdrawal userAddress) ;; return_
  | Some user =>
      currentBalance ← BigNumber_from (balance user) ;
      let withdrawalAmount := amount in
      if (currentBalance <? withdrawalAmount)%Z
      then console_warn (Insufficient_balance_for_user userAddress (balance user) amount) ;;
           return_
      else
        let newBalance := (currentBalance - withdrawalAmount)%Z in
        let user := mkUser (address user) (BigNumber.toString newBalance) in
        await (Save user) ;;
        console_log (Updated_user userAddress (balance user))
  end.

Definition handleWithdrawalProcessed (userAddress : string) (amount : Z)
  : Proc unit :=
  try_catch (handleWithdrawalProcessed_try userAddress amount)
            (fun error =>
               console_error (Error_processing_WithdrawalProcessed_event error)).

(* ===================================================================== *)
(** ** The listeners *)
(* ===================================================================== *)

(** The third argument ethers passes to a listener: where in the chain the
    event was emitted.  Together the two fields identify the event. *)
Record EventInfo : Type := mkEventInfo { transactionHash : string; logIndex : Z }.

(** An event of the contract as a listener receives it:
    [(user, amount, event)]. *)
Inductive ContractEvent : Type :=
| Deposit (user : string) (amount : Z) (event : EventInfo)
| WithdrawalProcessed (user : string) (amount : Z) (event : EventInfo).

Definition event_user (ev : ContractEvent) : string :=
  match ev with Deposit u _ _ | WithdrawalProcessed u _ _ => u end.

Definition event_amount (ev : ContractEvent) : Z :=
  match ev with Deposit _ a _ | WithdrawalProcessed _ a _ => a end.

(** The ABI types both amounts as [uint256]. *)
Definition uint256 (a : Z) : Prop := 0 <= a < 2 ^ 256.

(** The callbacks registered by [setupEventListeners]:
    [(user, amount, event) => { handleDeposit(user, amount); }] and its
    twin: the handler that starts when the event arrives. *)
Definition listener (ev : ContractEvent) : Proc unit :=
  match ev with
  | Deposit user amount event => handleDeposit user amount
  | WithdrawalProcessed user amount event => handleWithdrawalProcessed user amount
  end.

(* ===================================================================== *)
(** ** Running a handler against a store *)
(* ===================================================================== *)

(** The three operations of the [User] model, over any store state [S].
    Each returns a settled promise and the store after the call. *)
Class UserModel (S : Type) : Type := {
  findOneAndUpdate : string -> string -> S -> Promise (option User) * S;
  findOne : string -> S -> Promise (option User) * S;
  save : User -> S -> Promise unit * S
}.

Definition perform {S : Type} `{UserModel S} {B : Type} (q : Query B)
  : S -> Promise B * S :=
  match q with
  | FindOneAndUpdate addr bal => findOneAndUpdate addr bal
  | FindOne addr => findOne addr
  | Save user => save user
  end.

Record World (S : Type) : Type :=
  mkWorld { store : S; console : list (Level * Message) }.
Arguments mkWorld {S} store console.
Arguments store {S} w.
Arguments console {S} w.

Section Run.

Context {S : Type} `{UserModel S}.

(** A body run to its end, each awaited query answered at once. *)
Fixpoint run {A : Type} (m : Proc A) (w : World S) : Completion A * World S :=
  match m with
  | Done c => (c, w)
  | Print l msg k => run k (mkWorld (store w) (console w ++ [(l, msg)]))
  | Await q k =>
      let '(r, s') := perform q (store w) in
      run (k r) (mkWorld s' (console w))
  end.

(** The promise a call of an [async function] with body [body] settles
    to: fulfilled when the body ends or returns, rejected when it
    throws. *)
Definition async (body : Proc unit) (w : World S) : Promise unit * World S :=
  match run body w with
  | (Normal _, w') => (Fulfilled tt, w')
  | (Return, w') => (Fulfilled tt, w')
  | (Throw e, w') => (RejectedWith e, w')
  end.

(** The world after one event has been handled. *)
Definition deliver (w : World S) (ev : ContractEvent) : World S :=
  snd (async (listener ev) w).

(** The world after a sequence of events, handled in order. *)
Definition deliver_all (evs : list ContractEvent) (w : World S) : World S :=
  fold_left deliver evs w.

End Run.

(* ===================================================================== *)
(** ** The store: a collection of user records that can be unavailable *)
(* ===================================================================== *)

(** The collection behind the [User] model, one record per address:
    [users] maps the [address] of a record to its [balance].  [outages]
    is what the connection will do to the coming operations, in order:
    [true] rejects the operation and leaves the collection as it is, [false]
    lets it through; past the end of the list every operation goes through. *)
Record Mongo : Type := mkMongo { users : gmap string string; outages : list bool }.

Definition request {A : Type}
    (op : gmap string string -> A * gmap string string) (db : Mongo)
    : Promise A * Mongo :=
  match outages db with
  | true :: rest => (RejectedWith StoreError, mkMongo (users db) rest)
  | false :: rest =>
      let '(a, us) := op (users db) in (Fulfilled a, mkMongo us rest)
  | [] => let '(a, us) := op (users db) in (Fulfilled a, mkMongo us [])
  end.

#[export] Instance Mongo_UserModel : UserModel Mongo := {
  findOneAndUpdate addr bal :=
    request (fun us => (Some (mkUser addr bal), <[addr := bal]> us));
  findOne addr :=
    request (fun us => (mkUser addr <$> us !! addr, us));
  save user :=
    request (fun us => (tt, <[address user := balance user]> us))
}.

(** The balance recorded for an address, read as a number. *)
Definition balance_at (w : World Mongo) (addr : string) : option Z :=
  users (store w) !! addr ≫= BigNumber.from.

Definition world0 (us : gmap string string) (out : list bool) : World Mongo :=
  mkWorld (mkMongo us out) [].

(** The connection lets the next [n] operations through. *)
Definition responsive (n : nat) (db : Mongo) : bool :=
  forallb negb (take n (outages db)).

(** Every key of the collection is its own lower-case form. *)
Definition lowercase_keys (us : gmap string string) : Prop :=
  map_Forall (λ k _, Js.toLowerCase k = k) us.

(** A stored balance string that reads as a number that is not negative. *)
Definition nonneg_string (bal : string) : bool :=
  match BigNumber.from bal with
  | Some b => (0 <=? b)%Z
  | None => false
  end.

(** No record of the collection holds a negative balance. *)
Definition nonneg_balances (us : gmap string string) : Prop :=
  map_Forall (λ _ bal, nonneg_string bal = true) us.

(** The same event, from another spelling of the address. *)
Definition with_user (u : string) (ev : ContractEvent) : ContractEvent :=
  match ev with
  | Deposit _ a e => Deposit u a e
  | WithdrawalProcessed _ a e => WithdrawalProcessed u a e
  end.

(** What the record of a withdrawal's account must look like for the
    withdrawal to be written as [nb]. *)
Definition debit_of (us : gmap string string) (addr : string) (a : Z) (nb : string)
  : Prop :=
  ∃ bal b, us !! addr = Some bal ∧ BigNumber.from bal = Some b ∧ a <= b ∧
           nb = BigNumber.toString (b - a).

(** The new balance an applied event writes. *)
Definition written (us : gmap string string) (ev : ContractEvent) (nb : string)
  : Prop :=
  match ev with
  | Deposit _ a _ => nb = BigNumber.toString a
  | WithdrawalProcessed u a _ => debit_of us (Js.toLowerCase u) a nb
  end.

(** The handling of [ev] in [w] meets a rejected request, after which
    [rest] is left of the schedule of outages: the first request of either
    handler, or the [save] of a withdrawal that the balance covers. *)
Definition meets_outage (w : World Mongo) (ev : ContractEvent) (rest : list bool)
  : Prop :=
  outages (store w) = true :: rest ∨
  (outages (store w) = false :: true :: rest ∧
   ∃ u a e nb, ev = WithdrawalProcessed u a e ∧
               debit_of (users (store w)) (Js.toLowerCase u) a nb).

(* ===================================================================== *)
(** ** Handlers taking turns *)
(* ===================================================================== *)

(** A listener starts its handler and does not wait for it, so the handlers
    of several events are in flight together and each moves on when the
    query it awaits is answered.  A configuration is the world and what is
    left of every handler started so far. *)
Record Config : Type := mkConfig { world : World Mongo; tasks : list (Proc unit) }.

Inductive step : Config -> Config -> Prop :=
| step_event ev c :
    (* the contract emits an event; the decoder hands over a [uint256] *)
    uint256 (event_amount ev) ->
    step c (mkConfig (world c) (tasks c ++ [listener ev]))
| step_print i l m k c :
    tasks c !! i = Some (Print l m k) ->
    step c (mkConfig (mkWorld (store (world c)) (console (world c) ++ [(l, m)]))
                     (<[i := k]> (tasks c)))
| step_await i B (q : Query B) k r db c :
    tasks c !! i = Some (Await q k) ->
    perform q (store (world c)) = (r, db) ->
    step c (mkConfig (mkWorld db (console (world c))) (<[i := k r]> (tasks c))).

(** The balances a query writes are not negative. *)
Definition query_nonneg {B : Type} (q : Query B) : Prop :=
  match q with
  | FindOneAndUpdate _ bal => nonneg_string bal = true
  | FindOne _ => True
  | Save user => nonneg_string (balance user) = true
  end.

(** Whatever the answers to its queries, a body only writes balances that
    are not negative. *)
Fixpoint writes_nonneg {A : Type} (m : Proc A) : Prop :=
  match m with
  | Done _ => True
  | Print _ _ k => writes_nonneg k
  | Await q k => query_nonneg q ∧ ∀ r, writes_nonneg (k r)
  end.

(** A body that cannot end in a throw, whatever the answers to its
    queries. *)
Fixpoint never_throws {A : Type} (m : Proc A) : Prop :=
  match m with
  | Done (Throw _) => False
  | Done _ => True
  | Print _ _ k => never_throws k
  | Await _ k => ∀ r, never_throws (k r)
  end.

(** What holds of every configuration the handlers can reach by taking
    turns: no record is negative, and no handler in flight is about to
    write a negative balance. *)
Definition safe (c : Config) : Prop :=
  nonneg_balances (users (store (world c))) ∧ Forall writes_nonneg (tasks c).

(* ===================================================================== *)
(** ** The outcomes the specification speaks of *)
(* ===================================================================== *)

Module Spec.

Inductive Reason : Type := InsufficientBalance | AccountNotFound | StoreUnavailable.

(** The Processing Outcome of an event.  The handlers return nothing;
    what became of an event shows in the last line its handler printed.
    [Dropped] is the outcome of the [catch] blocks: the error is printed
    and the event is gone. *)
Inductive Outcome : Type :=
| Applied (newBalance : string)
| Rejected (reason : Reason)
| Deferred (reason : Reason)
| Dropped (error : Error).

Definition outcome_of_line (line : Level * Message) : option Outcome :=
  match line with
  | (LOG, Updated_user _ b) => Some (Applied b)
  | (WARN, User_not_found_for_withdrawal _) => Some (Rejected AccountNotFound)
  | (WARN, Insufficient_balance_for_user _ _ _) => Some (Rejected InsufficientBalance)
  | (ERROR, Error_processing_Deposit_event e) => Some (Dropped e)
  | (ERROR, Error_processing_WithdrawalProcessed_event e) => Some (Dropped e)
  | _ => None
  end.

(** The outcome of the event whose handling took the world from [w] to
    [w']: read off the last of the lines printed in between. *)
Definition outcome {S : Type} (w w' : World S) : option Outcome :=
  last (drop (length (console w)) (console w')) ≫= outcome_of_line.

(** Idempotence, as the specification words it: once an event has been
    applied, delivering it again leaves the balance of its account as it
    is. *)
Definition redelivery_is_noop (w : World Mongo) (ev : ContractEvent) : Prop :=
  let addr := Js.toLowerCase (event_user ev) in
  let w1 := deliver w ev in
  (∃ nb, outcome w w1 = Some (Applied nb)) →
  balance_at (deliver w1 ev) addr = balance_at w1 addr.

(** Retry, as the specification words it: a store operation that fails
    is attempted again, up to 5 attempts in all; so with fewer than 5
    rejections ahead the event has the effect on the records that it has
    on a store that answers. *)
Definition retried_up_to_5 (w : World Mongo) (ev : ContractEvent) : Prop :=
  (length (filter (eq true) (outages (store w))) < 5)%nat →
  users (store (deliver w ev)) =
  users (store (deliver (mkWorld (mkMongo (users (store w)) []) (console w)) ev)).

(** Additive credit, as the specification words it: a deposit of [a] on
    a record holding [b] leaves [b + a]. *)
Definition deposit_adds (w : World Mongo) (u : string) (a : Z) (e : EventInfo)
  : Prop :=
  ∀ b, balance_at w (Js.toLowerCase u) = Some b →
       balance_at (deliver w (Deposit u a e)) (Js.toLowerCase u) = Some (b + a).

End Spec.

(** The first line a handler prints for an event: the address and the
    amount as they were received. *)
Definition event_line (ev : ContractEvent) : Level * Message :=
  match ev with
  | Deposit user amount _ => (LOG, Deposit_event user amount)
  | WithdrawalProcessed user amount _ => (LOG, WithdrawalProcessed_event user amount)
  end.

(** An event of the [WithdrawalProcessed] kind. *)
Definition is_withdrawal (ev : ContractEvent) : bool :=
  match ev with
  | Deposit _ _ _ => false
  | WithdrawalProcessed _ _ _ => true
  end.

(** A handler that has come to its end. *)
Definition finished (t : Proc unit) : Prop := ∃ c, t = Done c.

(* ===================================================================== *)
(** ** Starting the bot *)
(* ===================================================================== *)

Module Bot.

(** What [startBot] can find thrown in its [try] block. *)
Inductive StartError : Type :=
| ReferenceError (name : string)   (* an identifier that is not bound *)
| Rejection (reason : string).     (* an awaited promise was rejected *)

Inductive Settled (A : Type) : Type :=
| Resolved (a : A)
| Failed (e : StartError).
Arguments Resolved {A} a.
Arguments Failed {A} e.

(** What [provider.getNetwork()] resolves to, as far as [startBot] reads
    it. *)
Record Network : Type := mkNetwork { name : string; chainId : Z }.

(** The lines [startBot] and [setupEventListeners] print, named after
    their text. *)
Inductive Line : Type :=
| Connected_to_Ethereum_network (name : string) (chainId : Z)
| Setting_up_event_listeners
| Bot_is_running_and_listening_for_events_on_contract (address : string)
| Error_starting_bot (error : StartError).

Inductive Emitter : Type := contract | provider.

(** The arrow functions [setupEventListeners] registers: the two contract
    callbacks take [(user, amount, event)] and start a handler; the provider
    callback only prints the error. *)
Inductive Callback : Type :=
| ContractCallback (f : string -> Z -> EventInfo -> Proc unit)
| ProviderErrorCallback.

Record Registration : Type :=
  mkRegistration { emitter : Emitter; eventName : string; callback : Callback }.

(** The process as [startBot] sees it: the listeners registered so far, the
    lines printed, and the exit code once [process.exit] has been called. *)
Record Host : Type :=
  mkHost { listeners : list Registration;
           printed : list (Level * Line);
           exitCode : option Z }.

(** What [startBot] finds around it.  The file binds [connectDB] (from
    [./config/db]) and no [connectMongoDB]: the name resolves only if the
    global object has it, [None] when it has not.  [getNetwork] is what the
    provider answers when asked. *)
Record Env : Type :=
  mkEnv { CONTRACT_ADDRESS : string;
          connectMongoDB : option (Settled unit);
          getNetwork : Settled Network }.

Definition print (l : Level) (x : Line) (h : Host) : Host :=
  mkHost (listeners h) (printed h ++ [(l, x)]) (exitCode h).

(** [emitter.on(eventName, callback)] *)
Definition on (em : Emitter) (n : string) (cb : Callback) (h : Host) : Host :=
  mkHost (listeners h ++ [mkRegistration em n cb]) (printed h) (exitCode h).

(** [process.exit(code)] *)
Definition process_exit (code : Z) (h : Host) : Host :=
  mkHost (listeners h) (printed h) (Some code).

Definition setupEventListeners (h : Host) : Host :=
  let h := print LOG Setting_up_event_listeners h in
  let h := on contract "Deposit"
              (ContractCallback (fun user amount event => handleDeposit user amount)) h in
  let h := on contract "WithdrawalProcessed"
              (ContractCallback
                 (fun user amount event => handleWithdrawalProcessed user amount)) h in
  on provider "error" ProviderErrorCallback h.

(** The [try] block of [startBot]: where it ends, or what it throws. *)
Definition startBot_try (env : Env) (h : Host) : Host + StartError * Host :=
  match connectMongoDB env with
  | None => inr (ReferenceError "connectMongoDB", h)
  | Some (Failed e) => inr (e, h)
  | Some (Resolved _) =>
      match getNetwork env with
      | Failed e => inr (e, h)
      | Resolved network =>
          let h := print LOG (Connected_to_Ethereum_network (name network)
                                                            (chainId network)) h in
          let h := setupEventListeners h in
          inl (print LOG (Bot_is_running_and_listening_for_events_on_contract
                            (CONTRACT_ADDRESS env)) h)
      end
  end.

Definition startBot (env : Env) (h : Host) : Host :=
  match startBot_try env h with
  | inl h' => h'
  | inr (error, h') => process_exit 1 (print ERROR (Error_starting_bot error) h')
  end.

(** The name under which the contract emits an event. *)
Definition event_name (ev : ContractEvent) : string :=
  match ev with
  | Deposit _ _ _ => "Deposit"
  | WithdrawalProcessed _ _ _ => "WithdrawalProcessed"
  end.

(** The handlers that start when the contract emits [ev]: one for each
    callback registered on the contract under the name of the event, in the
    order of registration; none once the process has exited. *)
Definition emit (h : Host) (ev : ContractEvent) : list (Proc unit) :=
  match exitCode h with
  | Some _ => []
  | None =>
      omap (fun r =>
              match emitter r, callback r with
              | contract, ContractCallback f =>
                  if String.eqb (eventName r) (event_name ev)
                  then Some (f (event_user ev) (event_amount ev)
                               (match ev with
                                | Deposit _ _ e | WithdrawalProcessed _ _ e => e
                                end))
                  else None
              | _, _ => None
              end)
           (listeners h)
  end.

(** A process that has just loaded the file. *)
Definition host0 : Host := mkHost [] [] None.

End Bot.

Definition ev0 : EventInfo := mkEventInfo "0xfeed" 0.
Definition ev1 : EventInfo := mkEventInfo "0xbeef" 7.

(* ===================================================================== *)
(** ** Facts about the library values *)
(* ===================================================================== *)

Lemma BigNumber_from_toString (z : Z) :
  BigNumber.from (BigNumber.toString z) = Some z.
Proof.
  unfold BigNumber.from, BigNumber.toString.
  rewrite NilZero.isi.
  - simpl. f_equal. apply DecimalZ.of_to.
  - destruct z as [|p|p]; simpl; try discriminate.
    intros [= Hp]. exact (DecimalPos.Unsigned.to_uint_nonnil p Hp).
  - destruct z as [|p|p]; simpl; try discriminate.
    intros [= Hp]. exact (DecimalPos.Unsigned.to_uint_nonnil p Hp).
Qed.

Lemma nonneg_string_toString (z : Z) :
  0 <= z → nonneg_string (BigNumber.toString z) = true.
Proof.
  intros Hz. unfold nonneg_string. rewrite BigNumber_from_toString.
  by apply Z.leb_le.
Qed.

Lemma lower_ascii_idem (c : ascii) :
  Js.lower_ascii (Js.lower_ascii c) = Js.lower_ascii c.
Proof.
  destruct c as [[] [] [] [] [] [] [] []]; reflexivity.
Qed.

Lemma toLowerCase_idem (s : string) :
  Js.toLowerCase (Js.toLowerCase s) = Js.toLowerCase s.
Proof.
  induction s as [|c s IH]; simpl; [reflexivity|].
  by rewrite lower_ascii_idem, IH.
Qed.

(* ===================================================================== *)
(** ** What a request does to the store *)
(* ===================================================================== *)

Lemma request_answered {A : Type} (op : gmap string string → A * gmap string string)
    (db : Mongo) :
  responsive 1 db = true →
  request op db =
    (Fulfilled (fst (op (users db))), mkMongo (snd (op (users db))) (tail (outages db))).
Proof.
  unfold responsive, request. destruct db as [us [|[] rest]]; simpl.
  - intros _. by destruct (op us).
  - discriminate.
  - intros _. by destruct (op us).
Qed.

(** A request leaves the records as they are or as its operation makes
    them, and always uses up one entry of the schedule. *)
Lemma request_cases {A : Type} (op : gmap string string → A * gmap string string)
    (db : Mongo) :
  outages (snd (request op db)) = tail (outages db) ∧
  ((fst (request op db) = RejectedWith StoreError ∧
    users (snd (request op db)) = users db) ∨
   (fst (request op db) = Fulfilled (fst (op (users db))) ∧
    users (snd (request op db)) = snd (op (users db)))).
Proof.
  unfold request. destruct db as [us [|[] rest]]; simpl.
  - destruct (op us); simpl. split; [done|]. by right.
  - split; [done|]. by left.
  - destruct (op us); simpl. split; [done|]. by right.
Qed.

Lemma responsive_tail (n : nat) (db : Mongo) us :
  responsive (S n) db = true →
  responsive n (mkMongo us (tail (outages db))) = true.
Proof.
  unfold responsive. destruct db as [us' [|o rest]]; simpl.
  - by rewrite take_nil.
  - by intros [_ ?]%andb_prop.
Qed.

(* ===================================================================== *)
(** ** The handlers on the collection, case by case *)
(* ===================================================================== *)

Lemma unresponsive_inv (db : Mongo) :
  responsive 1 db = false → ∃ rest, outages db = true :: rest.
Proof.
  unfold responsive. destruct db as [us [|[] rest]]; simpl; try discriminate.
  intros _. by exists rest.
Qed.

Lemma save_unresponsive_inv (db : Mongo) :
  responsive 1 db = true → responsive 2 db = false →
  ∃ rest, outages db = false :: true :: rest.
Proof.
  unfold responsive. destruct (outages db) as [|[] [|[] r]]; simpl; try discriminate.
  intros _ _. by exists r.
Qed.

Lemma responsive_first (n : nat) (db : Mongo) :
  responsive (S n) db = true → responsive 1 db = true.
Proof.
  unfold responsive. destruct (outages db) as [|o r]; simpl; [done|].
  intros [-> _]%andb_prop. done.
Qed.

Section Cases.

Variables (u : string) (a : Z) (w : World Mongo).

Let addr := Js.toLowerCase u.
Let us := users (store w).
Let out := outages (store w).

Lemma handleDeposit_answered :
  responsive 1 (store w) = true →
  run (handleDeposit u a) w =
    (Normal tt,
     mkWorld (mkMongo (<[addr := BigNumber.toString a]> us) (tail out))
             (console w ++ [(LOG, Deposit_event u a);
                            (LOG, Updated_user u (BigNumber.toString a))])).
Proof.
  intros Hr. unfold handleDeposit, handleDeposit_try. cbn.
  rewrite (request_answered _ _ Hr). cbn.
  by rewrite <- app_assoc.
Qed.

Lemma handleDeposit_rejected rest :
  out = true :: rest →
  run (handleDeposit u a) w =
    (Normal tt,
     mkWorld (mkMongo us rest)
             (console w ++ [(LOG, Deposit_event u a);
                            (ERROR, Error_processing_Deposit_event StoreError)])).
Proof.
  subst out us. destruct w as [[us0 out0] con]; simpl. intros ->.
  cbn. by rewrite <- app_assoc.
Qed.

Lemma handleWithdrawalProcessed_rejected rest :
  out = true :: rest →
  run (handleWithdrawalProcessed u a) w =
    (Normal tt,
     mkWorld (mkMongo us rest)
             (console w ++
              [(LOG, WithdrawalProcessed_event u a);
               (ERROR, Error_processing_WithdrawalProcessed_event StoreError)])).
Proof.
  subst out us. destruct w as [[us0 out0] con]; simpl. intros ->.
  cbn. by rewrite <- app_assoc.
Qed.

Lemma handleWithdrawalProcessed_not_found :
  responsive 1 (store w) = true →
  us !! addr = None →
  run (handleWithdrawalProcessed u a) w =
    (Return,
     mkWorld (mkMongo us (tail out))
             (console w ++ [(LOG, WithdrawalProcessed_event u a);
                            (WARN, User_not_found_for_withdrawal u)])).
Proof.
  intros Hr Hnone. unfold handleWithdrawalProcessed, handleWithdrawalProcessed_try.
  cbn. rewrite (request_answered _ _ Hr). cbn.
  fold us addr. rewrite Hnone. cbn. by rewrite <- app_assoc.
Qed.

Lemma handleWithdrawalProcessed_invalid bal :
  responsive 1 (store w) = true →
  us !! addr = Some bal →
  BigNumber.from bal = None →
  run (handleWithdrawalProcessed u a) w =
    (Normal tt,
     mkWorld (mkMongo us (tail out))
             (console w ++
              [(LOG, WithdrawalProcessed_event u a);
               (ERROR, Error_processing_WithdrawalProcessed_event
                         (InvalidBigNumber bal))])).
Proof.
  intros Hr Hbal Hnum. unfold handleWithdrawalProcessed, handleWithdrawalProcessed_try.
  cbn. rewrite (request_answered _ _ Hr). cbn.
  fold us addr. rewrite Hbal. cbn. unfold BigNumber_from. rewrite Hnum. cbn.
  by rewrite <- app_assoc.
Qed.

Lemma handleWithdrawalProcessed_insufficient bal b :
  responsive 1 (store w) = true →
  us !! addr = Some bal →
  BigNumber.from bal = Some b →
  b < a →
  run (handleWithdrawalProcessed u a) w =
    (Return,
     mkWorld (mkMongo us (tail out))
             (console w ++ [(LOG, WithdrawalProcessed_event u a);
                            (WARN, Insufficient_balance_for_user u bal a)])).
Proof.
  intros Hr Hbal Hnum Hlt. unfold handleWithdrawalProcessed, handleWithdrawalProcessed_try.
  cbn. rewrite (request_answered _ _ Hr). cbn.
  fold us addr. rewrite Hbal. cbn. unfold BigNumber_from. rewrite Hnum. cbn.
  apply Z.ltb_lt in Hlt. rewrite Hlt. cbn. by rewrite <- app_assoc.
Qed.

Lemma handleWithdrawalProcessed_saved bal b :
  responsive 2 (store w) = true →
  us !! addr = Some bal →
  BigNumber.from bal = Some b →
  a <= b →
  run (handleWithdrawalProcessed u a) w =
    (Normal tt,
     mkWorld (mkMongo (<[addr := BigNumber.toString (b - a)]> us) (tail (tail out)))
             (console w ++ [(LOG, WithdrawalProcessed_event u a);
                            (LOG, Updated_user u (BigNumber.toString (b - a)))])).
Proof.
  intros Hr Hbal Hnum Hle.
  pose proof (responsive_first _ _ Hr) as Hr1.
  unfold handleWithdrawalProcessed, handleWithdrawalProcessed_try.
  cbn. rewrite (request_answered _ _ Hr1). cbn.
  fold us addr. rewrite Hbal. cbn. unfold BigNumber_from. rewrite Hnum. cbn.
  apply Z.ltb_ge in Hle. rewrite Hle. cbn.
  rewrite request_answered by (apply (responsive_tail 1 _ us Hr)).
  cbn. by rewrite <- app_assoc.
Qed.

Lemma handleWithdrawalProcessed_save_rejected bal b rest :
  out = false :: true :: rest →
  us !! addr = Some bal →
  BigNumber.from bal = Some b →
  a <= b →
  run (handleWithdrawalProcessed u a) w =
    (Normal tt,
     mkWorld (mkMongo us rest)
             (console w ++
              [(LOG, WithdrawalProcessed_event u a);
               (ERROR, Error_processing_WithdrawalProcessed_event StoreError)])).
Proof.
  subst out us addr. destruct w as [[us0 out0] con]; simpl. intros -> Hbal Hnum Hle.
  unfold handleWithdrawalProcessed, handleWithdrawalProcessed_try.
  cbn. rewrite Hbal. cbn. unfold BigNumber_from. rewrite Hnum. cbn.
  apply Z.ltb_ge in Hle. rewrite Hle. cbn. by rewrite <- app_assoc.
Qed.

End Cases.

(* ===================================================================== *)
(** ** One event, summed up *)
(* ===================================================================== *)

Lemma outcome_printed {S : Type} (w w' : World S) (l1 l2 : Level * Message) :
  console w' = (console w ++ [l1; l2])%list →
  Spec.outcome w w' = Spec.outcome_of_line l2.
Proof.
  intros Hc. unfold Spec.outcome. rewrite Hc, drop_app_length. reflexivity.
Qed.

(** Handling one event either leaves the records as they are, and its
    outcome is not [Applied]; or it writes one balance, under the lower-case
    address of the event, and its outcome is [Applied] with that balance. *)
Lemma deliver_cases (w : World Mongo) (ev : ContractEvent) :
  let w' := deliver w ev in
  (users (store w') = users (store w) ∧
   ∀ nb, Spec.outcome w w' ≠ Some (Spec.Applied nb)) ∨
  (∃ nb, users (store w') = <[Js.toLowerCase (event_user ev) := nb]> (users (store w)) ∧
         Spec.outcome w w' = Some (Spec.Applied nb) ∧
         written (users (store w)) ev nb).
Proof.
  unfold deliver, async.
  destruct (responsive 1 (store w)) eqn:Hr1.
  2:{ apply unresponsive_inv in Hr1 as [rest Hrest]. left.
      destruct ev as [u a e|u a e]; cbn [listener event_user written].
      - rewrite (handleDeposit_rejected _ _ _ _ Hrest). simpl. split; [done|].
        intros nb. by erewrite outcome_printed by reflexivity.
      - rewrite (handleWithdrawalProcessed_rejected _ _ _ _ Hrest). simpl. split; [done|].
        intros nb. by erewrite outcome_printed by reflexivity. }
  destruct ev as [u a e|u a e]; cbn [listener event_user written].
  - right. exists (BigNumber.toString a).
    rewrite (handleDeposit_answered _ _ _ Hr1). simpl. split; [done|]. split; [|done].
    by erewrite outcome_printed by reflexivity.
  - destruct (users (store w) !! Js.toLowerCase u) as [bal|] eqn:Hbal.
    2:{ left. rewrite (handleWithdrawalProcessed_not_found _ _ _ Hr1 Hbal). simpl.
        split; [done|]. intros nb. by erewrite outcome_printed by reflexivity. }
    destruct (BigNumber.from bal) as [b|] eqn:Hnum.
    2:{ left. rewrite (handleWithdrawalProcessed_invalid _ _ _ _ Hr1 Hbal Hnum). simpl.
        split; [done|]. intros nb. by erewrite outcome_printed by reflexivity. }
    destruct (Z.lt_ge_cases b a) as [Hlt|Hle].
    { left. rewrite (handleWithdrawalProcessed_insufficient _ _ _ _ _ Hr1 Hbal Hnum Hlt).
      simpl. split; [done|]. intros nb. by erewrite outcome_printed by reflexivity. }
    destruct (responsive 2 (store w)) eqn:Hr2.
    + right. exists (BigNumber.toString (b - a)).
      rewrite (handleWithdrawalProcessed_saved _ _ _ _ _ Hr2 Hbal Hnum Hle). simpl.
      split; [done|]. split; [by erewrite outcome_printed by reflexivity|].
      by exists bal, b.
    + left.
      destruct (save_unresponsive_inv _ Hr1 Hr2) as [rest Hrest].
      rewrite (handleWithdrawalProcessed_save_rejected _ _ _ _ _ _ Hrest Hbal Hnum Hle).
      simpl. split; [done|]. intros nb. by erewrite outcome_printed by reflexivity.
Qed.

(* ===================================================================== *)
(** ** No handler lets an exception out *)
(* ===================================================================== *)

Lemma try_catch_never_throws {A : Type} (body : Proc A) (handler : Error → Proc A) :
  (∀ e, never_throws (handler e)) → never_throws (try_catch body handler).
Proof.
  intros Hh. induction body as [c|l m k IH|B q k IH]; simpl.
  - destruct c; simpl; [exact I|exact I|apply Hh].
  - exact IH.
  - intros r. apply IH.
Qed.

Lemma never_throws_run {S : Type} `{UserModel S} {A : Type} (m : Proc A) :
  never_throws m → ∀ (w : World S) e, fst (run m w) ≠ Throw e.
Proof.
  induction m as [c|l msg k IH|B q k IH]; simpl; intros Hm w e.
  - destruct c; [discriminate|discriminate|contradiction].
  - apply IH, Hm.
  - destruct (perform q (store w)) as [r s']. apply IH, Hm.
Qed.

Lemma async_fulfilled {S : Type} `{UserModel S} (body : Proc unit) (w : World S) :
  never_throws body → fst (async body w) = Fulfilled tt.
Proof.
  intros Hb. unfold async.
  pose proof (never_throws_run body Hb w) as Hrun.
  destruct (run body w) as [[[]| |e] w']; simpl in *; try reflexivity.
  by destruct (Hrun e).
Qed.

Lemma listener_never_throws (ev : ContractEvent) : never_throws (listener ev).
Proof.
  destruct ev as [u a e|u a e]; cbn [listener];
    apply try_catch_never_throws; intros err; exact I.
Qed.

(** C10: whatever the address and the amount, and whatever the store
    answers to each query (a record, nothing, or a rejection),
    [handleDeposit] and [handleWithdrawalProcessed] settle to a fulfilled
    promise: the body cannot end in a throw, so nothing reaches the
    listener that called it. *)
Theorem handlers_always_return_normally
    (userAddress : string) (amount : Z) :
  never_throws (handleDeposit userAddress amount) ∧
  never_throws (handleWithdrawalProcessed userAddress amount) ∧
  ∀ (S : Type) (model : UserModel S) (w : World S),
    fst (async (handleDeposit userAddress amount) w) = Fulfilled tt ∧
    fst (async (handleWithdrawalProcessed userAddress amount) w) = Fulfilled tt.
Proof.
  pose proof (listener_never_throws (Deposit userAddress amount ev0)) as Hd.
  pose proof (listener_never_throws (WithdrawalProcessed userAddress amount ev0)) as Hw.
  cbn [listener] in Hd, Hw. split; [exact Hd|]. split; [exact Hw|].
  intros S model w. split; by apply async_fulfilled.
Qed.

(* ===================================================================== *)
(** ** Withdrawals *)
(* ===================================================================== *)

Lemma deliver_uses_one_request_when_rejected (w : World Mongo) u a e :
  responsive 1 (store w) = false →
  let w' := deliver w (WithdrawalProcessed u a e) in
  users (store w') = users (store w) ∧ outages (store w') = tail (outages (store w)).
Proof.
  intros [rest Hrest]%unresponsive_inv. unfold deliver, async. cbn [listener].
  rewrite (handleWithdrawalProcessed_rejected _ _ _ _ Hrest). simpl.
  by rewrite Hrest.
Qed.

(** C3: on a record whose balance reads as [b], a withdrawal of
    [amount > b] writes nothing: the records are left as they were (so the
    stored balance is still [b]), the read is the only request made, and
    when the read was answered the outcome is
    [Rejected InsufficientBalance]. *)
Theorem withdrawal_above_balance_is_rejected
    (w : World Mongo) (userAddress : string) (amount : Z) (event : EventInfo)
    (bal : string) (b : Z) :
  users (store w) !! Js.toLowerCase userAddress = Some bal →
  BigNumber.from bal = Some b →
  b < amount →
  let w' := deliver w (WithdrawalProcessed userAddress amount event) in
  users (store w') = users (store w) ∧
  balance_at w' (Js.toLowerCase userAddress) = Some b ∧
  outages (store w') = tail (outages (store w)) ∧
  (responsive 1 (store w) = true →
   Spec.outcome w w' = Some (Spec.Rejected Spec.InsufficientBalance)).
Proof.
  intros Hbal Hnum Hlt w'.
  assert (Hsame : users (store w') = users (store w) ∧
                  outages (store w') = tail (outages (store w)) ∧
                  (responsive 1 (store w) = true →
                   Spec.outcome w w' = Some (Spec.Rejected Spec.InsufficientBalance))).
  { destruct (responsive 1 (store w)) eqn:Hr.
    - subst w'. unfold deliver, async. cbn [listener].
      rewrite (handleWithdrawalProcessed_insufficient _ _ _ _ _ Hr Hbal Hnum Hlt).
      simpl. split; [done|]. split; [done|]. intros _.
      by erewrite outcome_printed by reflexivity.
    - destruct (deliver_uses_one_request_when_rejected w userAddress amount event Hr)
        as [Hu Ho].
      split; [exact Hu|]. split; [exact Ho|]. discriminate. }
  destruct Hsame as (Hu & Ho & Hout).
  split; [exact Hu|]. split; [|split; [exact Ho|exact Hout]].
  unfold balance_at. rewrite Hu, Hbal. exact Hnum.
Qed.

Lemma withdrawal_above_balance_is_rejected_witness :
  let w := world0 {["0xabc" := "60"]} [] in
  let w' := deliver w (WithdrawalProcessed "0xABC" 1000 ev0) in
  users (store w') = users (store w) ∧
  balance_at w' "0xabc" = Some 60 ∧
  outages (store w') = tail (outages (store w)) ∧
  (responsive 1 (store w) = true →
   Spec.outcome w w' = Some (Spec.Rejected Spec.InsufficientBalance)).
Proof.
  apply (withdrawal_above_balance_is_rejected
           (world0 {["0xabc" := "60"]} []) "0xABC" 1000 ev0 "60" 60);
    [reflexivity | reflexivity | lia].
Defined.

(** C5: a withdrawal for an address that has no record leaves the records
    entirely as they were, so none is created; the read is the only request
    made, and when it was answered the outcome is
    [Rejected AccountNotFound]. *)
Theorem withdrawal_for_unknown_account_is_rejected
    (w : World Mongo) (userAddress : string) (amount : Z) (event : EventInfo) :
  users (store w) !! Js.toLowerCase userAddress = None →
  let w' := deliver w (WithdrawalProcessed userAddress amount event) in
  users (store w') = users (store w) ∧
  users (store w') !! Js.toLowerCase userAddress = None ∧
  outages (store w') = tail (outages (store w)) ∧
  (responsive 1 (store w) = true →
   Spec.outcome w w' = Some (Spec.Rejected Spec.AccountNotFound)).
Proof.
  intros Hnone w'.
  destruct (responsive 1 (store w)) eqn:Hr.
  - subst w'. unfold deliver, async. cbn [listener].
    rewrite (handleWithdrawalProcessed_not_found _ _ _ Hr Hnone). simpl.
    split; [done|]. split; [done|]. split; [done|]. intros _.
    by erewrite outcome_printed by reflexivity.
  - destruct (deliver_uses_one_request_when_rejected w userAddress amount event Hr)
      as [Hu Ho].
    fold w' in Hu, Ho. rewrite Hu. by repeat split.
Qed.

Lemma withdrawal_for_unknown_account_is_rejected_witness :
  let w := world0 {["0xabc" := "60"]} [] in
  let w' := deliver w (WithdrawalProcessed "0xDEF" 10 ev0) in
  users (store w') = users (store w) ∧
  users (store w') !! "0xdef" = None ∧
  outages (store w') = tail (outages (store w)) ∧
  (responsive 1 (store w) = true →
   Spec.outcome w w' = Some (Spec.Rejected Spec.AccountNotFound)).
Proof.
  apply (withdrawal_for_unknown_account_is_rejected
           (world0 {["0xabc" := "60"]} []) "0xDEF" 10 ev0).
  reflexivity.
Defined.

(** C6: on a record whose balance reads as [b], a withdrawal of
    [amount <= b] that the store answers writes back exactly [b - amount],
    in decimal digits; a withdrawal of the whole balance is applied and
    leaves ["0"]. *)
Theorem withdrawal_within_balance_is_subtracted
    (w : World Mongo) (userAddress : string) (amount : Z) (event : EventInfo)
    (bal : string) (b : Z) :
  users (store w) !! Js.toLowerCase userAddress = Some bal →
  BigNumber.from bal = Some b →
  amount <= b →
  responsive 2 (store w) = true →
  let w' := deliver w (WithdrawalProcessed userAddress amount event) in
  users (store w') =
    <[Js.toLowerCase userAddress := BigNumber.toString (b - amount)]> (users (store w)) ∧
  balance_at w' (Js.toLowerCase userAddress) = Some (b - amount) ∧
  Spec.outcome w w' = Some (Spec.Applied (BigNumber.toString (b - amount))) ∧
  (amount = b → users (store w') !! Js.toLowerCase userAddress = Some "0").
Proof.
  intros Hbal Hnum Hle Hr w'. subst w'. unfold deliver, async, balance_at.
  cbn [listener].
  rewrite (handleWithdrawalProcessed_saved _ _ _ _ _ Hr Hbal Hnum Hle). simpl.
  rewrite lookup_insert_eq. simpl.
  split; [done|]. split; [apply BigNumber_from_toString|].
  split; [by erewrite outcome_printed by reflexivity|].
  intros ->. by rewrite Z.sub_diag.
Qed.

Lemma withdrawal_within_balance_is_subtracted_witness :
  let w := world0 {["0xabc" := "100"]} [] in
  let w' := deliver w (WithdrawalProcessed "0xABC" 40 ev0) in
  users (store w') = <["0xabc" := "60"]> (users (store w)) ∧
  balance_at w' "0xabc" = Some 60 ∧
  Spec.outcome w w' = Some (Spec.Applied "60") ∧
  (40 = 100 → users (store w') !! "0xabc" = Some "0").
Proof.
  apply (withdrawal_within_balance_is_subtracted
           (world0 {["0xabc" := "100"]} []) "0xABC" 40 ev0 "100" 100);
    [reflexivity | reflexivity | lia | reflexivity].
Defined.

Example withdrawal_of_whole_balance :
  let w' := deliver (world0 {["0xabc" := "100"]} []) (WithdrawalProcessed "0xABC" 100 ev0) in
  users (store w') !! "0xabc" = Some "0" ∧ Spec.outcome (world0 {["0xabc" := "100"]} []) w' = Some (Spec.Applied "0").
Proof. split; reflexivity. Qed.

(* ===================================================================== *)
(** ** Deposits and the life of a record *)
(* ===================================================================== *)

Lemma deliver_all_cons (w : World Mongo) ev evs :
  deliver_all (ev :: evs) w = deliver_all evs (deliver w ev).
Proof. reflexivity. Qed.

(** No event removes a record. *)
Lemma deliver_keeps_record (w : World Mongo) ev k :
  is_Some (users (store w) !! k) → is_Some (users (store (deliver w ev)) !! k).
Proof.
  intros Hk. destruct (deliver_cases w ev) as [[-> _]|(nb & -> & _)]; [exact Hk|].
  rewrite lookup_insert. case_decide; [by eexists|exact Hk].
Qed.

Lemma deliver_all_keeps_record evs (w : World Mongo) k :
  is_Some (users (store w) !! k) → is_Some (users (store (deliver_all evs w)) !! k).
Proof.
  revert w. induction evs as [|ev evs IH]; intros w Hk; [exact Hk|].
  rewrite deliver_all_cons. apply IH. by apply deliver_keeps_record.
Qed.

(** A record only changes in the handling of an event whose outcome is
    [Applied], and then to the balance the outcome carries. *)
Lemma deliver_changes_only_when_applied (w : World Mongo) ev k :
  users (store (deliver w ev)) !! k ≠ users (store w) !! k →
  ∃ nb, Spec.outcome w (deliver w ev) = Some (Spec.Applied nb) ∧
        users (store (deliver w ev)) !! k = Some nb.
Proof.
  intros Hch. destruct (deliver_cases w ev) as [[Hsame _]|(nb & Hins & Hout & _)].
  - by rewrite Hsame in Hch.
  - exists nb. split; [exact Hout|]. rewrite Hins in Hch |- *.
    rewrite lookup_insert in Hch |- *. by case_decide.
Qed.

(** C7: a deposit of [amount] for an address with no record, answered by
    the store, creates the record with balance [amount].  Whatever events
    follow, the record is still there; and an event that changes it has an
    [Applied] outcome carrying the balance the record now holds. *)
Theorem first_deposit_creates_the_record
    (w : World Mongo) (userAddress : string) (amount : Z) (event : EventInfo) :
  users (store w) !! Js.toLowerCase userAddress = None →
  responsive 1 (store w) = true →
  let addr := Js.toLowerCase userAddress in
  let w' := deliver w (Deposit userAddress amount event) in
  users (store w') = <[addr := BigNumber.toString amount]> (users (store w)) ∧
  balance_at w' addr = Some amount ∧
  Spec.outcome w w' = Some (Spec.Applied (BigNumber.toString amount)) ∧
  (∀ evs, is_Some (users (store (deliver_all evs w')) !! addr)) ∧
  (∀ evs ev,
     let w1 := deliver_all evs w' in
     users (store (deliver w1 ev)) !! addr ≠ users (store w1) !! addr →
     ∃ nb, Spec.outcome w1 (deliver w1 ev) = Some (Spec.Applied nb) ∧
           users (store (deliver w1 ev)) !! addr = Some nb).
Proof.
  intros Hnone Hr addr w'.
  assert (Hw' : users (store w') = <[addr := BigNumber.toString amount]> (users (store w)) ∧
                Spec.outcome w w' = Some (Spec.Applied (BigNumber.toString amount))).
  { subst w'. unfold deliver, async. cbn [listener].
    rewrite (handleDeposit_answered _ _ _ Hr). simpl. split; [done|].
    by erewrite outcome_printed by reflexivity. }
  destruct Hw' as [Hu Hout].
  split; [exact Hu|]. split.
  { unfold balance_at. rewrite Hu, lookup_insert_eq. simpl.
    apply BigNumber_from_toString. }
  split; [exact Hout|]. split.
  - intros evs. apply deliver_all_keeps_record. rewrite Hu, lookup_insert_eq. by eexists.
  - intros evs ev w1. apply deliver_changes_only_when_applied.
Qed.

Lemma first_deposit_creates_the_record_witness :
  let w := world0 ∅ [] in
  let w' := deliver w (Deposit "0xABC" 100 ev0) in
  users (store w') = <["0xabc" := "100"]> (users (store w)) ∧
  balance_at w' "0xabc" = Some 100 ∧
  Spec.outcome w w' = Some (Spec.Applied "100") ∧
  (∀ evs, is_Some (users (store (deliver_all evs w')) !! "0xabc")) ∧
  (∀ evs ev,
     let w1 := deliver_all evs w' in
     users (store (deliver w1 ev)) !! "0xabc" ≠ users (store w1) !! "0xabc" →
     ∃ nb, Spec.outcome w1 (deliver w1 ev) = Some (Spec.Applied nb) ∧
           users (store (deliver w1 ev)) !! "0xabc" = Some nb).
Proof.
  apply (first_deposit_creates_the_record (world0 ∅ []) "0xABC" 100 ev0);
    reflexivity.
Defined.

(* ===================================================================== *)
(** ** Addresses *)
(* ===================================================================== *)

(** Only the record under the lower-case address of the event can
    change. *)
Lemma deliver_other_records (w : World Mongo) ev k :
  k ≠ Js.toLowerCase (event_user ev) →
  users (store (deliver w ev)) !! k = users (store w) !! k.
Proof.
  intros Hk. destruct (deliver_cases w ev) as [[-> _]|(nb & -> & _)]; [done|].
  by rewrite lookup_insert_ne.
Qed.

Lemma deliver_lowercase_keys (w : World Mongo) ev :
  lowercase_keys (users (store w)) → lowercase_keys (users (store (deliver w ev))).
Proof.
  intros Hlow. destruct (deliver_cases w ev) as [[-> _]|(nb & -> & _)]; [done|].
  apply map_Forall_insert_2; [apply toLowerCase_idem|exact Hlow].
Qed.

Lemma deliver_all_lowercase_keys evs (w : World Mongo) :
  lowercase_keys (users (store w)) →
  lowercase_keys (users (store (deliver_all evs w))).
Proof.
  revert w. induction evs as [|ev evs IH]; intros w Hlow; [exact Hlow|].
  rewrite deliver_all_cons. by apply IH, deliver_lowercase_keys.
Qed.

(** The store after an event depends on the address of the event only
    through its lower-case form. *)
Lemma deliver_store_case_blind (w : World Mongo) ev u' :
  Js.toLowerCase u' = Js.toLowerCase (event_user ev) →
  store (deliver w (with_user u' ev)) = store (deliver w ev).
Proof.
  intros Heq. unfold deliver, async.
  destruct (responsive 1 (store w)) eqn:Hr1.
  2:{ apply unresponsive_inv in Hr1 as [rest Hrest].
      destruct ev as [u a e|u a e]; cbn [listener with_user].
      - by rewrite !(handleDeposit_rejected _ _ _ _ Hrest).
      - by rewrite !(handleWithdrawalProcessed_rejected _ _ _ _ Hrest). }
  destruct ev as [u a e|u a e]; cbn [listener with_user event_user] in *.
  - rewrite !(handleDeposit_answered _ _ _ Hr1). simpl. by rewrite Heq.
  - destruct (users (store w) !! Js.toLowerCase u) as [bal|] eqn:Hbal.
    2:{ assert (Hbal' := Hbal). rewrite <- Heq in Hbal'.
        by rewrite (handleWithdrawalProcessed_not_found _ _ _ Hr1 Hbal),
                   (handleWithdrawalProcessed_not_found _ _ _ Hr1 Hbal'). }
    assert (Hbal' := Hbal). rewrite <- Heq in Hbal'.
    destruct (BigNumber.from bal) as [b|] eqn:Hnum.
    2:{ by rewrite (handleWithdrawalProcessed_invalid _ _ _ _ Hr1 Hbal Hnum),
                   (handleWithdrawalProcessed_invalid _ _ _ _ Hr1 Hbal' Hnum). }
    destruct (Z.lt_ge_cases b a) as [Hlt|Hle].
    { by rewrite (handleWithdrawalProcessed_insufficient _ _ _ _ _ Hr1 Hbal Hnum Hlt),
                 (handleWithdrawalProcessed_insufficient _ _ _ _ _ Hr1 Hbal' Hnum Hlt). }
    destruct (responsive 2 (store w)) eqn:Hr2.
    + rewrite (handleWithdrawalProcessed_saved _ _ _ _ _ Hr2 Hbal Hnum Hle),
              (handleWithdrawalProcessed_saved _ _ _ _ _ Hr2 Hbal' Hnum Hle).
      simpl. by rewrite Heq.
    + destruct (save_unresponsive_inv _ Hr1 Hr2) as [rest Hrest].
      by rewrite (handleWithdrawalProcessed_save_rejected _ _ _ _ _ _ Hrest Hbal Hnum Hle),
                 (handleWithdrawalProcessed_save_rejected _ _ _ _ _ _ Hrest Hbal' Hnum Hle).
Qed.

(** C9: an event reads and writes the record under the lower-case form of
    its address and no other; two events that differ only in the letter
    case of the address leave the same store; and every key of the
    collection stays a lower-case string, after one event and after any
    sequence of them. *)
Theorem account_is_keyed_by_lowercase_address
    (w : World Mongo) (ev : ContractEvent) :
  lowercase_keys (users (store w)) →
  let addr := Js.toLowerCase (event_user ev) in
  (∀ k, k ≠ addr → users (store (deliver w ev)) !! k = users (store w) !! k) ∧
  (∀ u', Js.toLowerCase u' = addr →
         store (deliver w (with_user u' ev)) = store (deliver w ev)) ∧
  lowercase_keys (users (store (deliver w ev))) ∧
  (∀ evs, lowercase_keys (users (store (deliver_all evs w)))).
Proof.
  intros Hlow addr. split; [|split; [|split]].
  - intros k Hk. by apply deliver_other_records.
  - intros u' Hu'. by apply deliver_store_case_blind.
  - by apply deliver_lowercase_keys.
  - intros evs. by apply deliver_all_lowercase_keys.
Qed.

Lemma account_is_keyed_by_lowercase_address_witness :
  let w := world0 {["0xabc" := "60"]} [] in
  let ev := WithdrawalProcessed "0xABC" 40 ev0 in
  (∀ k, k ≠ "0xabc" → users (store (deliver w ev)) !! k = users (store w) !! k) ∧
  (∀ u', Js.toLowerCase u' = "0xabc" →
         store (deliver w (with_user u' ev)) = store (deliver w ev)) ∧
  lowercase_keys (users (store (deliver w ev))) ∧
  (∀ evs, lowercase_keys (users (store (deliver_all evs w)))).
Proof.
  apply (account_is_keyed_by_lowercase_address
           (world0 {["0xabc" := "60"]} []) (WithdrawalProcessed "0xABC" 40 ev0)).
  compute_done.
Defined.

Example mixed_case_addresses_share_a_record :
  let w := deliver_all [Deposit "0xABCdef" 100 ev0; WithdrawalProcessed "0xabcDEF" 40 ev1]
                       (world0 ∅ []) in
  map_to_list (users (store w)) = [("0xabcdef", "60")].
Proof. reflexivity. Qed.

(* ===================================================================== *)
(** ** No balance below zero *)
(* ===================================================================== *)

Lemma try_catch_writes_nonneg {A : Type} (body : Proc A) (handler : Error → Proc A) :
  writes_nonneg body → (∀ e, writes_nonneg (handler e)) →
  writes_nonneg (try_catch body handler).
Proof.
  intros Hb Hh. induction body as [c|l m k IH|B q k IH]; simpl in *.
  - destruct c; simpl; [exact I|exact I|apply Hh].
  - by apply IH.
  - destruct Hb as [Hq Hk]. split; [exact Hq|]. intros r. by apply IH.
Qed.

Lemma handleDeposit_writes_nonneg (u : string) (a : Z) :
  0 <= a → writes_nonneg (handleDeposit u a).
Proof.
  intros Ha. apply try_catch_writes_nonneg; [|intros e; exact I].
  cbn. split; [by apply nonneg_string_toString|].
  intros [[user|]|e]; exact I.
Qed.

Lemma handleWithdrawalProcessed_writes_nonneg (u : string) (a : Z) :
  writes_nonneg (handleWithdrawalProcessed u a).
Proof.
  apply try_catch_writes_nonneg; [|intros e; exact I].
  cbn. split; [exact I|].
  intros [[user|]|e]; cbn; try exact I.
  unfold BigNumber_from. destruct (BigNumber.from (balance user)) as [b|]; cbn; [|exact I].
  destruct (b <? a)%Z eqn:Hlt; cbn; [exact I|].
  split.
  - apply nonneg_string_toString. apply Z.ltb_ge in Hlt. lia.
  - intros [[]|e]; exact I.
Qed.

Lemma listener_writes_nonneg (ev : ContractEvent) :
  uint256 (event_amount ev) → writes_nonneg (listener ev).
Proof.
  destruct ev as [u a e|u a e]; cbn [listener event_amount]; intros [Ha _].
  - by apply handleDeposit_writes_nonneg.
  - apply handleWithdrawalProcessed_writes_nonneg.
Qed.

Lemma request_nonneg {A : Type} (op : gmap string string → A * gmap string string)
    (db : Mongo) :
  nonneg_balances (users db) →
  nonneg_balances (snd (op (users db))) →
  nonneg_balances (users (snd (request op db))).
Proof.
  intros Hdb Hop. destruct (request_cases op db) as [_ [[_ ->]|[_ ->]]]; done.
Qed.

Lemma perform_nonneg {B : Type} (q : Query B) (db : Mongo) :
  query_nonneg q →
  nonneg_balances (users db) →
  nonneg_balances (users (snd (perform q db))).
Proof.
  intros Hq Hdb. destruct q as [addr bal|addr|user]; simpl in *;
    apply request_nonneg; simpl; try done.
  - by apply map_Forall_insert_2.
  - by apply map_Forall_insert_2.
Qed.

Lemma run_nonneg {A : Type} (m : Proc A) (w : World Mongo) :
  writes_nonneg m →
  nonneg_balances (users (store w)) →
  nonneg_balances (users (store (snd (run m w)))).
Proof.
  revert w. induction m as [c|l msg k IH|B q k IH]; intros w Hm Hw; simpl in *.
  - exact Hw.
  - by apply IH.
  - destruct Hm as [Hq Hk].
    pose proof (perform_nonneg q (store w) Hq Hw) as Hp.
    destruct (perform q (store w)) as [r db]. by apply IH.
Qed.

Lemma deliver_nonneg (w : World Mongo) ev :
  uint256 (event_amount ev) →
  nonneg_balances (users (store w)) →
  nonneg_balances (users (store (deliver w ev))).
Proof.
  intros Hev Hw. unfold deliver, async.
  pose proof (run_nonneg (listener ev) w (listener_writes_nonneg ev Hev) Hw) as Hrun.
  by destruct (run (listener ev) w) as [[[]| |e] w'].
Qed.

Lemma deliver_all_nonneg evs (w : World Mongo) :
  Forall (λ ev, uint256 (event_amount ev)) evs →
  nonneg_balances (users (store w)) →
  nonneg_balances (users (store (deliver_all evs w))).
Proof.
  intros Hevs. revert w. induction Hevs as [|ev evs Hev _ IH]; intros w Hw; [exact Hw|].
  rewrite deliver_all_cons. by apply IH, deliver_nonneg.
Qed.

Lemma step_safe (c c' : Config) : step c c' → safe c → safe c'.
Proof.
  intros Hstep [Hw Ht]. destruct Hstep as [ev c Hev|i l m k c Hi|i B q k r db c Hi Hp];
    split; simpl.
  - exact Hw.
  - apply Forall_app. split; [exact Ht|]. apply Forall_singleton.
    by apply listener_writes_nonneg.
  - exact Hw.
  - apply Forall_insert; [exact Ht|].
    exact (Forall_lookup_1 _ _ _ _ Ht Hi).
  - pose proof (Forall_lookup_1 _ _ _ _ Ht Hi) as [Hq _].
    pose proof (perform_nonneg q (store (world c)) Hq Hw) as Hdb.
    by rewrite Hp in Hdb.
  - apply Forall_insert; [exact Ht|].
    pose proof (Forall_lookup_1 _ _ _ _ Ht Hi) as [_ Hk]. apply Hk.
Qed.

Lemma steps_safe (c c' : Config) : rtc step c c' → safe c → safe c'.
Proof. induction 1 as [|c1 c2 c3 H12 _ IH]; [done|]. intros Hc. by apply IH, (step_safe c1). Qed.

(** C4: starting from records none of which is negative, and with the
    amounts the contract can emit, no record is ever negative: not after any
    number of the events of a sequence handled one after the other, and not
    in any configuration reached while the handlers of the events take
    turns at their awaits. *)
Theorem balances_are_never_negative (w : World Mongo) :
  nonneg_balances (users (store w)) →
  (∀ evs n, Forall (λ ev, uint256 (event_amount ev)) evs →
            nonneg_balances (users (store (deliver_all (take n evs) w)))) ∧
  (∀ c, rtc step (mkConfig w []) c → nonneg_balances (users (store (world c)))).
Proof.
  intros Hw. split.
  - intros evs n Hevs. apply deliver_all_nonneg; [|exact Hw].
    by apply Forall_take.
  - intros c Hc. apply (steps_safe _ _ Hc). split; [exact Hw|apply Forall_nil_2].
Qed.

Lemma balances_are_never_negative_witness :
  let w := world0 {["0xabc" := "60"]} [true; false] in
  (∀ evs n, Forall (λ ev, uint256 (event_amount ev)) evs →
            nonneg_balances (users (store (deliver_all (take n evs) w)))) ∧
  (∀ c, rtc step (mkConfig w []) c → nonneg_balances (users (store (world c)))).
Proof.
  apply (balances_are_never_negative (world0 {["0xabc" := "60"]} [true; false])).
  compute_done.
Defined.

(* ===================================================================== *)
(** ** Deposits on an existing record *)
(* ===================================================================== *)

(** A deposit the store answers leaves the amount of the deposit as the
    balance, whatever the record held. *)
Lemma deposit_sets_the_balance (w : World Mongo) u a e :
  responsive 1 (store w) = true →
  balance_at (deliver w (Deposit u a e)) (Js.toLowerCase u) = Some a.
Proof.
  intros Hr. unfold deliver, async, balance_at. cbn [listener].
  rewrite (handleDeposit_answered _ _ _ Hr). simpl.
  rewrite lookup_insert_eq. simpl. apply BigNumber_from_toString.
Qed.

(** C1: (the handler departs from the claim) a deposit of 50 on the
    record of ["0xabc"], which holds 100, leaves 50 and not 150: the
    balance is replaced by the amount, not increased by it.  Two deposits
    of 100 and 50 on an empty collection leave 50, not their sum. *)
Theorem deposit_replaces_the_balance :
  let w := world0 {["0xabc" := "100"]} [] in
  let w' := deliver w (Deposit "0xABC" 50 ev0) in
  balance_at w "0xabc" = Some 100 ∧
  balance_at w' "0xabc" = Some 50 ∧
  Spec.outcome w w' = Some (Spec.Applied "50") ∧
  ¬ Spec.deposit_adds w "0xABC" 50 ev0 ∧
  balance_at (deliver_all [Deposit "0xABC" 100 ev0; Deposit "0xABC" 50 ev1] (world0 ∅ []))
             "0xabc" = Some 50.
Proof.
  split; [reflexivity|]. split; [reflexivity|]. split; [reflexivity|].
  split; [|reflexivity].
  intros Hadd. specialize (Hadd 100 eq_refl). vm_compute in Hadd. discriminate.
Qed.

(* ===================================================================== *)
(** ** Redelivery *)
(* ===================================================================== *)

(** The withdrawal of 40 from a balance of 100 is applied a second time
    when it is delivered a second time. *)
Lemma redelivery_is_not_a_noop :
  ¬ Spec.redelivery_is_noop (world0 {["0xabc" := "100"]} [])
                            (WithdrawalProcessed "0xABC" 40 ev0).
Proof.
  intros Hnoop. unfold Spec.redelivery_is_noop in Hnoop.
  assert (Happlied : ∃ nb,
            Spec.outcome (world0 {["0xabc" := "100"]} [])
              (deliver (world0 {["0xabc" := "100"]} [])
                       (WithdrawalProcessed "0xABC" 40 ev0)) = Some (Spec.Applied nb)).
  { exists "60". reflexivity. }
  specialize (Hnoop Happlied). vm_compute in Hnoop. discriminate.
Qed.

Lemma deliver_eq_run {S : Type} `{UserModel S} (w : World S) ev :
  deliver w ev = snd (run (listener ev) w).
Proof. unfold deliver, async. by destruct (run (listener ev) w) as [[[]| |e] w']. Qed.

Lemma responsive_no_outages (n : nat) (us : gmap string string) :
  responsive n (mkMongo us []) = true.
Proof. unfold responsive. simpl. by rewrite take_nil. Qed.

(** C2 (as amended): the listeners pass on the address and the amount and
    drop the event identity, so every delivery is handled afresh.  On a
    store that answers, a withdrawal of [amount <= b] delivered twice is
    subtracted once, and then a second time when what is left covers it;
    when what is left does not cover it, the second delivery is rejected
    for insufficient balance. *)
Theorem redelivered_withdrawal_is_handled_afresh
    (w : World Mongo) (userAddress : string) (amount : Z) (event : EventInfo)
    (bal : string) (b : Z) :
  users (store w) !! Js.toLowerCase userAddress = Some bal →
  BigNumber.from bal = Some b →
  amount <= b →
  outages (store w) = [] →
  let addr := Js.toLowerCase userAddress in
  let ev := WithdrawalProcessed userAddress amount event in
  let w1 := deliver w ev in
  let w2 := deliver w1 ev in
  (∀ e1 e2, listener (Deposit userAddress amount e1) =
            listener (Deposit userAddress amount e2) ∧
            listener (WithdrawalProcessed userAddress amount e1) =
            listener (WithdrawalProcessed userAddress amount e2)) ∧
  balance_at w1 addr = Some (b - amount) ∧
  (amount <= b - amount →
   balance_at w2 addr = Some (b - amount - amount) ∧
   Spec.outcome w1 w2 = Some (Spec.Applied (BigNumber.toString (b - amount - amount)))) ∧
  (b - amount < amount →
   balance_at w2 addr = Some (b - amount) ∧
   Spec.outcome w1 w2 = Some (Spec.Rejected Spec.InsufficientBalance)).
Proof.
  intros Hbal Hnum Hle Hout addr ev w1 w2.
  split; [intros e1 e2; split; reflexivity|].
  assert (Hr : responsive 2 (store w) = true).
  { destruct w as [[us out] con]. simpl in Hout. subst out.
    apply responsive_no_outages. }
  assert (Hw1 : w1 = mkWorld (mkMongo (<[addr := BigNumber.toString (b - amount)]>
                                         (users (store w))) [])
                             (console w ++
                              [(LOG, WithdrawalProcessed_event userAddress amount);
                               (LOG, Updated_user userAddress
                                       (BigNumber.toString (b - amount)))])).
  { unfold w1. rewrite deliver_eq_run. cbn [ev listener].
    rewrite (handleWithdrawalProcessed_saved _ _ _ _ _ Hr Hbal Hnum Hle).
    by rewrite Hout. }
  assert (Hb1 : balance_at w1 addr = Some (b - amount)).
  { rewrite Hw1. unfold balance_at. simpl. rewrite lookup_insert_eq. simpl.
    apply BigNumber_from_toString. }
  split; [exact Hb1|].
  assert (Hbal1 : users (store w1) !! addr = Some (BigNumber.toString (b - amount))).
  { rewrite Hw1. simpl. by rewrite lookup_insert_eq. }
  assert (Hr1 : ∀ n, responsive n (store w1) = true).
  { intros n. rewrite Hw1. apply responsive_no_outages. }
  split.
  - intros Hle2. unfold w2. rewrite deliver_eq_run. cbn [ev listener].
    rewrite (handleWithdrawalProcessed_saved _ _ _ _ _ (Hr1 2%nat) Hbal1
               (BigNumber_from_toString _) Hle2).
    split.
    + unfold balance_at. simpl. rewrite lookup_insert_eq. simpl.
      apply BigNumber_from_toString.
    + by erewrite outcome_printed by reflexivity.
  - intros Hlt. unfold w2. rewrite deliver_eq_run. cbn [ev listener].
    rewrite (handleWithdrawalProcessed_insufficient _ _ _ _ _ (Hr1 1%nat) Hbal1
               (BigNumber_from_toString _) Hlt).
    split.
    + unfold balance_at. simpl. fold addr. rewrite Hbal1. simpl.
      apply BigNumber_from_toString.
    + by erewrite outcome_printed by reflexivity.
Qed.

Lemma redelivered_withdrawal_is_handled_afresh_witness :
  let w := world0 {["0xabc" := "100"]} [] in
  let ev := WithdrawalProcessed "0xABC" 40 ev0 in
  let w1 := deliver w ev in
  let w2 := deliver w1 ev in
  (∀ e1 e2, listener (Deposit "0xABC" 40 e1) = listener (Deposit "0xABC" 40 e2) ∧
            listener (WithdrawalProcessed "0xABC" 40 e1) =
            listener (WithdrawalProcessed "0xABC" 40 e2)) ∧
  balance_at w1 "0xabc" = Some (100 - 40) ∧
  (40 <= 100 - 40 →
   balance_at w2 "0xabc" = Some (100 - 40 - 40) ∧
   Spec.outcome w1 w2 = Some (Spec.Applied (BigNumber.toString (100 - 40 - 40)))) ∧
  (100 - 40 < 40 →
   balance_at w2 "0xabc" = Some (100 - 40) ∧
   Spec.outcome w1 w2 = Some (Spec.Rejected Spec.InsufficientBalance)).
Proof.
  apply (redelivered_withdrawal_is_handled_afresh
           (world0 {["0xabc" := "100"]} []) "0xABC" 40 ev0 "100" 100);
    [reflexivity | reflexivity | lia | reflexivity].
Defined.

(* ===================================================================== *)
(** ** Store failures *)
(* ===================================================================== *)

(** With one rejection ahead, which a second attempt would get past, the
    deposit is not recorded. *)
Lemma store_failure_is_not_retried :
  ¬ Spec.retried_up_to_5 (world0 ∅ [true]) (Deposit "0xabc" 100 ev0).
Proof.
  intros Hretry. unfold Spec.retried_up_to_5 in Hretry.
  assert (Hfew : (length (filter (eq true) (outages (store (world0 ∅ [true])))) < 5)%nat).
  { vm_compute. lia. }
  specialize (Hretry Hfew).
  assert (Hin : users (store (deliver (world0 ∅ [true]) (Deposit "0xabc" 100 ev0)))
                  !! "0xabc" = None) by reflexivity.
  rewrite Hretry in Hin. vm_compute in Hin. discriminate.
Qed.

(** C8 (as amended): a request the store rejects is not attempted again.
    The handler catches the error, prints it with [console.error] and
    returns normally; the records are as they were before the event, the
    schedule of the store has moved past the one rejected request and no
    further, and the outcome of the event is [Dropped], not [Deferred]. *)
Theorem store_failure_drops_the_event
    (w : World Mongo) (ev : ContractEvent) (rest : list bool) :
  meets_outage w ev rest →
  let w' := deliver w ev in
  fst (async (listener ev) w) = Fulfilled tt ∧
  users (store w') = users (store w) ∧
  outages (store w') = rest ∧
  Spec.outcome w w' = Some (Spec.Dropped StoreError).
Proof.
  intros Hout w'. split; [apply async_fulfilled, listener_never_throws|].
  unfold w'. rewrite deliver_eq_run.
  destruct Hout as [Hfirst|[Hsave (u & a & e & nb & -> & bal & b & Hbal & Hnum & Hle & _)]].
  - destruct ev as [u a e|u a e]; cbn [listener].
    + rewrite (handleDeposit_rejected _ _ _ _ Hfirst). simpl.
      split; [done|]. split; [done|]. by erewrite outcome_printed by reflexivity.
    + rewrite (handleWithdrawalProcessed_rejected _ _ _ _ Hfirst). simpl.
      split; [done|]. split; [done|]. by erewrite outcome_printed by reflexivity.
  - cbn [listener].
    rewrite (handleWithdrawalProcessed_save_rejected _ _ _ _ _ _ Hsave Hbal Hnum Hle).
    simpl. split; [done|]. split; [done|]. by erewrite outcome_printed by reflexivity.
Qed.

Lemma store_failure_drops_the_event_witness :
  let w := world0 {["0xabc" := "100"]} [true; false; false] in
  let ev := Deposit "0xABC" 50 ev0 in
  let w' := deliver w ev in
  fst (async (listener ev) w) = Fulfilled tt ∧
  users (store w') = users (store w) ∧
  outages (store w') = [false; false] ∧
  Spec.outcome w w' = Some (Spec.Dropped StoreError).
Proof.
  apply (store_failure_drops_the_event
           (world0 {["0xabc" := "100"]} [true; false; false])
           (Deposit "0xABC" 50 ev0) [false; false]).
  left. reflexivity.
Defined.

(* ===================================================================== *)
(** ** The scenario of the specification, as the handlers run it *)
(* ===================================================================== *)

(** Deposit(100), Withdrawal(40), Withdrawal(1000), and the first deposit
    delivered again: 100, then 60, then the rejection that leaves 60, and
    then 100 again, the balance of the deposit. *)
Example scenario :
  let d := Deposit "0xABC" 100 ev0 in
  let w1 := deliver (world0 ∅ []) d in
  let w2 := deliver w1 (WithdrawalProcessed "0xABC" 40 ev1) in
  let w3 := deliver w2 (WithdrawalProcessed "0xABC" 1000 ev1) in
  let w4 := deliver w3 d in
  map (λ w, balance_at w "0xabc") [w1; w2; w3; w4] =
    [Some 100; Some 60; Some 60; Some 100] ∧
  Spec.outcome w2 w3 = Some (Spec.Rejected Spec.InsufficientBalance).
Proof. split; reflexivity. Qed.

(* ===================================================================== *)
(** ** More on deposits and withdrawals *)
(* ===================================================================== *)

Lemma deliver_deposit_answered (w : World Mongo) u a e :
  responsive 1 (store w) = true →
  deliver w (Deposit u a e) =
    mkWorld (mkMongo (<[Js.toLowerCase u := BigNumber.toString a]> (users (store w)))
                     (tail (outages (store w))))
            (console w ++ [(LOG, Deposit_event u a);
                           (LOG, Updated_user u (BigNumber.toString a))]).
Proof.
  intros Hr. rewrite deliver_eq_run. cbn [listener].
  by rewrite (handleDeposit_answered _ _ _ Hr).
Qed.

Lemma deliver_withdrawal_saved (w : World Mongo) u a e bal b :
  responsive 2 (store w) = true →
  users (store w) !! Js.toLowerCase u = Some bal →
  BigNumber.from bal = Some b →
  a <= b →
  deliver w (WithdrawalProcessed u a e) =
    mkWorld (mkMongo (<[Js.toLowerCase u := BigNumber.toString (b - a)]> (users (store w)))
                     (tail (tail (outages (store w)))))
            (console w ++ [(LOG, WithdrawalProcessed_event u a);
                           (LOG, Updated_user u (BigNumber.toString (b - a)))]).
Proof.
  intros Hr Hbal Hnum Hle. rewrite deliver_eq_run. cbn [listener].
  by rewrite (handleWithdrawalProcessed_saved _ _ _ _ _ Hr Hbal Hnum Hle).
Qed.

Lemma responsive_when_no_outages (n : nat) (db : Mongo) :
  outages db = [] → responsive n db = true.
Proof. destruct db as [us out]. simpl. intros ->. apply responsive_no_outages. Qed.

(** X1: a deposit the store answers leaves the amount as the balance
    whatever the record held before, readable or not: the record is
    replaced, nothing of the old balance is kept. *)
Theorem deposit_overwrites_whatever_was_stored
    (w : World Mongo) (userAddress : string) (amount : Z) (event : EventInfo) :
  responsive 1 (store w) = true →
  let addr := Js.toLowerCase userAddress in
  let w' := deliver w (Deposit userAddress amount event) in
  users (store w') = <[addr := BigNumber.toString amount]> (users (store w)) ∧
  balance_at w' addr = Some amount ∧
  (∀ us, users (store w) = <[addr := BigNumber.toString amount]> us →
         users (store w') = users (store w)) ∧
  Spec.outcome w w' = Some (Spec.Applied (BigNumber.toString amount)).
Proof.
  intros Hr addr w'. unfold w'. rewrite (deliver_deposit_answered _ _ _ _ Hr).
  unfold balance_at. simpl. fold addr. rewrite lookup_insert_eq. simpl.
  split; [done|]. split; [apply BigNumber_from_toString|]. split.
  - intros us ->. by rewrite insert_insert_eq.
  - by erewrite outcome_printed by reflexivity.
Qed.

Lemma deposit_overwrites_whatever_was_stored_witness :
  let w := world0 {["0xabc" := "not a number"]} [] in
  let w' := deliver w (Deposit "0xABC" 7 ev0) in
  users (store w') = <["0xabc" := "7"]> (users (store w)) ∧
  balance_at w' "0xabc" = Some 7 ∧
  (∀ us, users (store w) = <["0xabc" := "7"]> us →
         users (store w') = users (store w)) ∧
  Spec.outcome w w' = Some (Spec.Applied "7").
Proof.
  apply (deposit_overwrites_whatever_was_stored
           (world0 {["0xabc" := "not a number"]} []) "0xABC" 7 ev0).
  reflexivity.
Defined.

(** X2: of two deposits for the same account, in whatever letter case,
    only the second counts: with both answered, the balance is the amount
    of the second and the records are what the second alone would have
    left. *)
Theorem last_deposit_wins
    (w : World Mongo) (u1 u2 : string) (a1 a2 : Z) (e1 e2 : EventInfo) :
  responsive 2 (store w) = true →
  Js.toLowerCase u1 = Js.toLowerCase u2 →
  let w' := deliver_all [Deposit u1 a1 e1; Deposit u2 a2 e2] w in
  balance_at w' (Js.toLowerCase u2) = Some a2 ∧
  users (store w') = users (store (deliver w (Deposit u2 a2 e2))).
Proof.
  intros Hr Hu w'. unfold w'. cbn [deliver_all fold_left].
  pose proof (responsive_first _ _ Hr) as Hr1.
  rewrite (deliver_deposit_answered w u2 a2 e2 Hr1).
  rewrite (deliver_deposit_answered w u1 a1 e1 Hr1).
  rewrite deliver_deposit_answered by (apply (responsive_tail 1 _ _ Hr)).
  unfold balance_at. simpl. rewrite Hu, insert_insert_eq, lookup_insert_eq. simpl.
  split; [apply BigNumber_from_toString|done].
Qed.

Lemma last_deposit_wins_witness :
  let w := world0 {["0xabc" := "5"]} [] in
  let w' := deliver_all [Deposit "0xABC" 100 ev0; Deposit "0xabc" 30 ev1] w in
  balance_at w' "0xabc" = Some 30 ∧
  users (store w') = users (store (deliver w (Deposit "0xabc" 30 ev1))).
Proof.
  apply (last_deposit_wins (world0 {["0xabc" := "5"]} []) "0xABC" "0xabc" 100 30 ev0 ev1);
    reflexivity.
Defined.

(** X3: two withdrawals that the balance covers together are both
    applied, the balance ends at [b - a1 - a2], and the order in which the
    two arrive makes no difference to the records. *)
Theorem covered_withdrawals_add_up
    (w : World Mongo) (u : string) (a1 a2 : Z) (e1 e2 : EventInfo)
    (bal : string) (b : Z) :
  users (store w) !! Js.toLowerCase u = Some bal →
  BigNumber.from bal = Some b →
  0 <= a1 → 0 <= a2 → a1 + a2 <= b →
  outages (store w) = [] →
  let w12 := deliver_all [WithdrawalProcessed u a1 e1; WithdrawalProcessed u a2 e2] w in
  let w21 := deliver_all [WithdrawalProcessed u a2 e2; WithdrawalProcessed u a1 e1] w in
  balance_at w12 (Js.toLowerCase u) = Some (b - a1 - a2) ∧
  users (store w12) = users (store w21).
Proof.
  intros Hbal Hnum H1 H2 Hsum Hout w12 w21.
  assert (Hboth : ∀ x y ex ey, 0 <= x → 0 <= y → x + y <= b →
            users (store (deliver_all [WithdrawalProcessed u x ex;
                                       WithdrawalProcessed u y ey] w)) =
            <[Js.toLowerCase u := BigNumber.toString (b - x - y)]> (users (store w))).
  { intros x y ex ey Hx Hy Hxy. cbn [deliver_all fold_left].
    rewrite (deliver_withdrawal_saved w u x ex bal b)
      by (try apply responsive_when_no_outages; try done; lia).
    erewrite deliver_withdrawal_saved.
    - simpl. by rewrite insert_insert_eq.
    - apply responsive_when_no_outages. simpl. by rewrite Hout.
    - simpl. by rewrite lookup_insert_eq.
    - apply BigNumber_from_toString.
    - lia. }
  unfold w12, w21, balance_at. rewrite !Hboth by (try done; lia).
  rewrite lookup_insert_eq. simpl. split; [apply BigNumber_from_toString|].
  do 2 f_equal. lia.
Qed.

Lemma covered_withdrawals_add_up_witness :
  let w := world0 {["0xabc" := "100"]} [] in
  let w12 := deliver_all [WithdrawalProcessed "0xABC" 30 ev0;
                          WithdrawalProcessed "0xABC" 50 ev1] w in
  let w21 := deliver_all [WithdrawalProcessed "0xABC" 50 ev1;
                          WithdrawalProcessed "0xABC" 30 ev0] w in
  balance_at w12 "0xabc" = Some (100 - 30 - 50) ∧
  users (store w12) = users (store w21).
Proof.
  apply (covered_withdrawals_add_up (world0 {["0xabc" := "100"]} [])
           "0xABC" 30 50 ev0 ev1 "100" 100);
    [reflexivity | reflexivity | lia | lia | lia | reflexivity].
Defined.

(** X4: the balance a deposit writes is one the withdrawal handler reads
    back: on a store that answers, a deposit of [a] followed by a
    withdrawal of [a' <= a] for the same account, in whatever letter case,
    leaves [a - a'], whatever the record held before the deposit. *)
Theorem withdrawal_reads_what_deposit_wrote
    (w : World Mongo) (u u' : string) (a a' : Z) (e1 e2 : EventInfo) :
  Js.toLowerCase u' = Js.toLowerCase u →
  a' <= a →
  outages (store w) = [] →
  let w' := deliver_all [Deposit u a e1; WithdrawalProcessed u' a' e2] w in
  users (store w') = <[Js.toLowerCase u := BigNumber.toString (a - a')]> (users (store w)) ∧
  balance_at w' (Js.toLowerCase u) = Some (a - a') ∧
  Spec.outcome (deliver w (Deposit u a e1)) w' =
    Some (Spec.Applied (BigNumber.toString (a - a'))).
Proof.
  intros Hu Hle Hout w'. unfold w'. cbn [deliver_all fold_left].
  rewrite (deliver_deposit_answered w u a e1)
    by (by apply responsive_when_no_outages).
  erewrite deliver_withdrawal_saved.
  - unfold balance_at. simpl. rewrite Hu, insert_insert_eq, lookup_insert_eq. simpl.
    split; [done|]. split; [apply BigNumber_from_toString|].
    by erewrite outcome_printed by reflexivity.
  - apply responsive_when_no_outages. simpl. by rewrite Hout.
  - simpl. by rewrite Hu, lookup_insert_eq.
  - apply BigNumber_from_toString.
  - exact Hle.
Qed.

Lemma withdrawal_reads_what_deposit_wrote_witness :
  let w := world0 ∅ [] in
  let w' := deliver_all [Deposit "0xABC" 100 ev0; WithdrawalProcessed "0xabc" 100 ev1] w in
  users (store w') = <["0xabc" := BigNumber.toString (100 - 100)]> (users (store w)) ∧
  balance_at w' "0xabc" = Some (100 - 100) ∧
  Spec.outcome (deliver w (Deposit "0xABC" 100 ev0)) w' =
    Some (Spec.Applied (BigNumber.toString (100 - 100))).
Proof.
  apply (withdrawal_reads_what_deposit_wrote (world0 ∅ []) "0xABC" "0xabc" 100 100 ev0 ev1);
    [reflexivity | lia | reflexivity].
Defined.

(* ===================================================================== *)
(** ** Which records exist, and what is printed *)
(* ===================================================================== *)

Lemma deliver_withdrawal_dom (w : World Mongo) ev :
  is_withdrawal ev = true →
  dom (users (store (deliver w ev))) = dom (users (store w)).
Proof.
  intros Hev. destruct (deliver_cases w ev) as [[-> _]|(nb & -> & _ & Hwr)]; [done|].
  destruct ev as [u a e|u a e]; [discriminate|].
  destruct Hwr as (bal & b & Hbal & _). simpl.
  by apply dom_insert_lookup_L.
Qed.

(** X5: a withdrawal never creates a record and never removes one,
    whatever its amount and whatever the store does: after any sequence of
    withdrawals the collection has the records of the same addresses.  An
    event of either kind leaves at most one more record, under the
    lower-case address of the event. *)
Theorem withdrawals_keep_the_set_of_records
    (w : World Mongo) (evs : list ContractEvent) :
  forallb is_withdrawal evs = true →
  dom (users (store (deliver_all evs w))) = dom (users (store w)) ∧
  (∀ ev, dom (users (store w)) ⊆ dom (users (store (deliver w ev))) ∧
         dom (users (store (deliver w ev))) ⊆
           {[Js.toLowerCase (event_user ev)]} ∪ dom (users (store w))).
Proof.
  intros Hevs. split.
  - revert w Hevs. induction evs as [|ev evs IH]; intros w Hevs; [done|].
    simpl in Hevs. apply andb_prop in Hevs as [Hev Hevs].
    rewrite deliver_all_cons, IH by done. by apply deliver_withdrawal_dom.
  - intros ev. destruct (deliver_cases w ev) as [[-> _]|(nb & -> & _)].
    + set_solver.
    + rewrite dom_insert_L. set_solver.
Qed.

Lemma withdrawals_keep_the_set_of_records_witness :
  let w := world0 {["0xabc" := "100"]} [false; true] in
  let evs := [WithdrawalProcessed "0xABC" 40 ev0; WithdrawalProcessed "0xDEF" 1 ev1;
              WithdrawalProcessed "0xabc" 1000 ev1] in
  dom (users (store (deliver_all evs w))) = dom (users (store w)) ∧
  (∀ ev, dom (users (store w)) ⊆ dom (users (store (deliver w ev))) ∧
         dom (users (store (deliver w ev))) ⊆
           {[Js.toLowerCase (event_user ev)]} ∪ dom (users (store w))).
Proof.
  apply (withdrawals_keep_the_set_of_records
           (world0 {["0xabc" := "100"]} [false; true])
           [WithdrawalProcessed "0xABC" 40 ev0; WithdrawalProcessed "0xDEF" 1 ev1;
            WithdrawalProcessed "0xabc" 1000 ev1]).
  reflexivity.
Defined.

(** X6: whatever the store is and whatever it answers, the handling of an
    event prints exactly two lines: first the line of the event, with the
    address and the amount as received, and then one line that tells what
    became of the event (updated, not found, insufficient, or the error
    caught). *)
Theorem every_event_prints_two_lines
    {S : Type} `{UserModel S} (w : World S) (ev : ContractEvent) :
  ∃ line : Level * Message,
    console (deliver w ev) = (console w ++ [event_line ev; line])%list ∧
    is_Some (Spec.outcome_of_line line) ∧
    Spec.outcome w (deliver w ev) = Spec.outcome_of_line line.
Proof.
  assert (Hgoal : ∃ line : Level * Message,
            console (deliver w ev) = (console w ++ [event_line ev; line])%list ∧
            is_Some (Spec.outcome_of_line line)).
  { rewrite deliver_eq_run.
    destruct ev as [u a e|u a e]; cbn [listener event_line].
    - unfold handleDeposit, handleDeposit_try. cbn.
      destruct (findOneAndUpdate (Js.toLowerCase u) (parseWeiToString a) (store w))
        as [[[user|]|err] s']; cbn; rewrite <- app_assoc; eexists; (split; [reflexivity|]);
        by eexists.
    - unfold handleWithdrawalProcessed, handleWithdrawalProcessed_try. cbn.
      destruct (findOne (Js.toLowerCase u) (store w)) as [[[user|]|err] s']; cbn.
      + unfold BigNumber_from. destruct (BigNumber.from (balance user)) as [b|]; cbn.
        * destruct (b <? a)%Z; cbn.
          -- rewrite <- app_assoc; eexists; (split; [reflexivity|]); by eexists.
          -- destruct (save _ s') as [[[]|err] s'']; cbn; rewrite <- app_assoc; eexists;
               (split; [reflexivity|]); by eexists.
        * rewrite <- app_assoc; eexists; (split; [reflexivity|]); by eexists.
      + rewrite <- app_assoc; eexists; (split; [reflexivity|]); by eexists.
      + rewrite <- app_assoc; eexists; (split; [reflexivity|]); by eexists. }
  destruct Hgoal as (line & Hc & Hl). exists line. split; [exact Hc|]. split; [exact Hl|].
  by apply (outcome_printed w _ (event_line ev) line).
Qed.

(* ===================================================================== *)
(** ** Schedules *)
(* ===================================================================== *)

Lemma insert_last_task (ts : list (Proc unit)) (t t' : Proc unit) :
  <[length ts := t']> (ts ++ [t])%list = (ts ++ [t'])%list.
Proof. rewrite insert_app_r_alt by lia. by rewrite Nat.sub_diag. Qed.

(** The last handler started can run to its end without the others
    moving. *)
Lemma run_steps (m : Proc unit) (w : World Mongo) (ts : list (Proc unit)) :
  rtc step (mkConfig w (ts ++ [m]))
           (mkConfig (snd (run m w)) (ts ++ [Done (fst (run m w))])).
Proof.
  revert w. induction m as [c|l msg k IH|B q k IH]; intros w; simpl.
  - apply rtc_refl.
  - eapply rtc_l; [|apply IH].
    pose proof (step_print (length ts) l msg k (mkConfig w (ts ++ [Print l msg k]))
                  (list_lookup_middle ts [] _ _ eq_refl)) as Hstep.
    simpl in Hstep. by rewrite insert_last_task in Hstep.
  - destruct (perform q (store w)) as [r db] eqn:Hp.
    eapply rtc_l; [|apply IH].
    pose proof (step_await (length ts) B q k r db (mkConfig w (ts ++ [Await q k]))
                  (list_lookup_middle ts [] _ _ eq_refl) Hp) as Hstep.
    simpl in Hstep. by rewrite insert_last_task in Hstep.
Qed.

Lemma deliver_all_steps (evs : list ContractEvent) (w : World Mongo)
    (ts0 : list (Proc unit)) :
  Forall (λ ev, uint256 (event_amount ev)) evs →
  ∃ ts, rtc step (mkConfig w ts0) (mkConfig (deliver_all evs w) (ts0 ++ ts)) ∧
        Forall finished ts ∧ length ts = length evs.
Proof.
  intros Hevs. revert w ts0.
  induction Hevs as [|ev evs Hev _ IH]; intros w ts0.
  - exists []. rewrite app_nil_r. split; [apply rtc_refl|]. by split.
  - destruct (IH (deliver w ev) (ts0 ++ [Done (fst (run (listener ev) w))])%list)
      as (ts & Hsteps & Hdone & Hlen).
    exists (Done (fst (run (listener ev) w)) :: ts).
    split; [|split].
    + eapply rtc_l; [exact (step_event ev (mkConfig w ts0) Hev)|].
      cbn [world tasks].
      eapply rtc_trans; [apply run_steps|].
      rewrite <- deliver_eq_run, deliver_all_cons.
      by rewrite <- app_assoc in Hsteps.
    + apply Forall_cons. split; [by eexists|exact Hdone].
    + simpl. by rewrite Hlen.
Qed.

(** X7: handling the events of a sequence one after the other, each to
    its end, is one of the ways the handlers can take turns: the world
    [deliver_all] computes is reached by steps, with one finished handler
    for each event. *)
Theorem handling_in_order_is_a_schedule
    (evs : list ContractEvent) (w : World Mongo) :
  Forall (λ ev, uint256 (event_amount ev)) evs →
  ∃ ts, rtc step (mkConfig w []) (mkConfig (deliver_all evs w) ts) ∧
        Forall finished ts ∧ length ts = length evs.
Proof. intros Hevs. exact (deliver_all_steps evs w [] Hevs). Qed.

Lemma handling_in_order_is_a_schedule_witness :
  let evs := [Deposit "0xABC" 100 ev0; WithdrawalProcessed "0xabc" 40 ev1] in
  ∃ ts, rtc step (mkConfig (world0 ∅ [true]) [])
                 (mkConfig (deliver_all evs (world0 ∅ [true])) ts) ∧
        Forall finished ts ∧ length ts = length evs.
Proof.
  apply (handling_in_order_is_a_schedule
           [Deposit "0xABC" 100 ev0; WithdrawalProcessed "0xabc" 40 ev1]
           (world0 ∅ [true])).
  repeat constructor; simpl; lia.
Defined.

(** The withdrawal handler, laid out: the event line, the read, and, for a
    record whose balance covers the amount, the write of the difference and
    the line that reports it. *)
Lemma handleWithdrawalProcessed_shape (u : string) (a : Z) :
  ∃ K, handleWithdrawalProcessed u a =
         Print LOG (WithdrawalProcessed_event u a) (Await (FindOne (Js.toLowerCase u)) K) ∧
       ∀ bal b, BigNumber.from bal = Some b → a <= b →
         ∃ K2, K (Fulfilled (Some (mkUser (Js.toLowerCase u) bal))) =
                 Await (Save (mkUser (Js.toLowerCase u) (BigNumber.toString (b - a)))) K2 ∧
               K2 (Fulfilled tt) =
                 Print LOG (Updated_user u (BigNumber.toString (b - a))) (Done (Normal tt)).
Proof.
  eexists. split; [reflexivity|]. intros bal b Hnum Hle. cbn.
  unfold BigNumber_from. rewrite Hnum. cbn.
  apply Z.ltb_ge in Hle. rewrite Hle. cbn.
  eexists. split; reflexivity.
Qed.

(** X8: the handlers of two withdrawals for the same account are not kept
    apart.  When two withdrawals of [a <= b] are both in flight, there is a
    schedule in which each reads the balance [b] before the other has
    written: both end with the line that reports the update, and the balance
    has gone down by [a] once, not twice. *)
Theorem two_withdrawals_in_flight_can_both_read_the_old_balance
    (w : World Mongo) (u : string) (a : Z) (e1 e2 : EventInfo)
    (bal : string) (b : Z) :
  users (store w) !! Js.toLowerCase u = Some bal →
  BigNumber.from bal = Some b →
  uint256 a →
  a <= b →
  outages (store w) = [] →
  let updated := (LOG, Updated_user u (BigNumber.toString (b - a))) in
  ∃ c, rtc step (mkConfig w []) c ∧
       tasks c = [Done (Normal tt); Done (Normal tt)] ∧
       console (world c) =
         (console w ++ [event_line (WithdrawalProcessed u a e1);
                        event_line (WithdrawalProcessed u a e2);
                        updated; updated])%list ∧
       balance_at (world c) (Js.toLowerCase u) = Some (b - a).
Proof.
  intros Hbal Hnum Ha Hle Hout updated.
  destruct (handleWithdrawalProcessed_shape u a) as (K & HT & HK).
  destruct (HK bal b Hnum Hle) as (K2 & HK1 & HK2).
  destruct w as [[us out] con]. simpl in Hbal, Hout. subst out.
  set (addr := Js.toLowerCase u) in *.
  set (nb := BigNumber.toString (b - a)) in *.
  eexists. split; [|split; [|split]].
  - (* the two events arrive *)
    eapply rtc_l; [exact (step_event (WithdrawalProcessed u a e1) _ Ha)|].
    eapply rtc_l; [exact (step_event (WithdrawalProcessed u a e2) _ Ha)|].
    cbn [world tasks app listener]. rewrite HT.
    (* each prints its line *)
    eapply rtc_l; [eapply (step_print 0); reflexivity|]. cbn.
    eapply rtc_l; [eapply (step_print 1); reflexivity|]. cbn.
    (* each reads the record *)
    eapply rtc_l; [eapply (step_await 0); reflexivity|]. cbn.
    eapply rtc_l; [eapply (step_await 1); reflexivity|]. cbn.
    rewrite Hbal. cbn. rewrite HK1.
    (* each writes what it computed from what it read *)
    eapply rtc_l; [eapply (step_await 0); reflexivity|]. cbn.
    eapply rtc_l; [eapply (step_await 1); reflexivity|]. cbn.
    rewrite HK2.
    (* each reports *)
    eapply rtc_l; [eapply (step_print 0); reflexivity|]. cbn.
    eapply rtc_l; [eapply (step_print 1); reflexivity|]. cbn.
    apply rtc_refl.
  - reflexivity.
  - cbn. by rewrite <- !app_assoc.
  - unfold balance_at. cbn. rewrite lookup_insert_eq. cbn.
    apply BigNumber_from_toString.
Qed.

Lemma two_withdrawals_in_flight_can_both_read_the_old_balance_witness :
  let w := world0 {["0xabc" := "100"]} [] in
  let updated := (LOG, Updated_user "0xABC" (BigNumber.toString (100 - 60))) in
  ∃ c, rtc step (mkConfig w []) c ∧
       tasks c = [Done (Normal tt); Done (Normal tt)] ∧
       console (world c) =
         (console w ++ [event_line (WithdrawalProcessed "0xABC" 60 ev0);
                        event_line (WithdrawalProcessed "0xABC" 60 ev1);
                        updated; updated])%list ∧
       balance_at (world c) "0xabc" = Some (100 - 60).
Proof.
  apply (two_withdrawals_in_flight_can_both_read_the_old_balance
           (world0 {["0xabc" := "100"]} []) "0xABC" 60 ev0 ev1 "100" 100);
    [reflexivity | reflexivity | split; simpl; lia | lia | reflexivity].
Defined.

(* ===================================================================== *)
(** ** Starting the bot *)
(* ===================================================================== *)

(** X9: when [connectMongoDB] is not bound, which is how the file leaves
    it, [startBot] stops at its first statement whatever the provider would
    answer: it prints the error, exits with code 1, registers no listener,
    and no contract event starts a handler. *)
Theorem startBot_exits_when_connectMongoDB_is_unbound
    (env : Bot.Env) (h : Bot.Host) :
  Bot.connectMongoDB env = None →
  let h' := Bot.startBot env h in
  Bot.exitCode h' = Some 1 ∧
  Bot.listeners h' = Bot.listeners h ∧
  Bot.printed h' =
    (Bot.printed h ++
     [(ERROR, Bot.Error_starting_bot (Bot.ReferenceError "connectMongoDB"))])%list ∧
  ∀ ev, Bot.emit h' ev = [].
Proof.
  intros Hnone h'. unfold h', Bot.startBot, Bot.startBot_try. rewrite Hnone.
  by repeat split.
Qed.

Lemma startBot_exits_when_connectMongoDB_is_unbound_witness :
  let env := Bot.mkEnv "0x5FbDB2315678afecb367f032d93F642f64180aa3" None
                       (Bot.Resolved (Bot.mkNetwork "homestead" 1)) in
  let h' := Bot.startBot env Bot.host0 in
  Bot.exitCode h' = Some 1 ∧
  Bot.listeners h' = Bot.listeners Bot.host0 ∧
  Bot.printed h' =
    (Bot.printed Bot.host0 ++
     [(ERROR, Bot.Error_starting_bot (Bot.ReferenceError "connectMongoDB"))])%list ∧
  ∀ ev, Bot.emit h' ev = [].
Proof.
  apply (startBot_exits_when_connectMongoDB_is_unbound
           (Bot.mkEnv "0x5FbDB2315678afecb367f032d93F642f64180aa3" None
                      (Bot.Resolved (Bot.mkNetwork "homestead" 1)))
           Bot.host0).
  reflexivity.
Defined.

(** X10: [startBot] registers all of its listeners or none.  From a
    process with no listener, either it exits with code 1 after one error
    line, with nothing registered and no event handled; or the connection
    and the network check both succeeded, it has not exited, the listeners
    are the two of the contract and the one of the provider, in that order,
    and a contract event starts exactly the handler of its kind with the
    address and the amount of the event. *)
Theorem startBot_registers_all_listeners_or_none (env : Bot.Env) :
  let h' := Bot.startBot env Bot.host0 in
  (Bot.exitCode h' = Some 1 ∧
   Bot.listeners h' = [] ∧
   (∃ e, Bot.printed h' = [(ERROR, Bot.Error_starting_bot e)]) ∧
   (∀ ev, Bot.emit h' ev = [])) ∨
  (Bot.exitCode h' = None ∧
   (∃ network, Bot.connectMongoDB env = Some (Bot.Resolved tt) ∧
               Bot.getNetwork env = Bot.Resolved network ∧
               Bot.printed h' =
                 [(LOG, Bot.Connected_to_Ethereum_network (Bot.name network)
                                                          (Bot.chainId network));
                  (LOG, Bot.Setting_up_event_listeners);
                  (LOG, Bot.Bot_is_running_and_listening_for_events_on_contract
                          (Bot.CONTRACT_ADDRESS env))]) ∧
   map (λ r, (Bot.emitter r, Bot.eventName r)) (Bot.listeners h') =
     [(Bot.contract, "Deposit"); (Bot.contract, "WithdrawalProcessed");
      (Bot.provider, "error")] ∧
   (∀ ev, Bot.emit h' ev = [listener ev])).
Proof.
  intros h'. unfold h', Bot.startBot, Bot.startBot_try.
  destruct (Bot.connectMongoDB env) as [[[]|e]|].
  - destruct (Bot.getNetwork env) as [network|e].
    + right. split; [reflexivity|]. split; [by exists network|].
      split; [reflexivity|]. intros [u a e|u a e]; reflexivity.
    + left. split; [reflexivity|]. split; [reflexivity|].
      split; [by eexists|]. reflexivity.
  - left. split; [reflexivity|]. split; [reflexivity|]. split; [by eexists|]. reflexivity.
  - left. split; [reflexivity|]. split; [reflexivity|]. split; [by eexists|]. reflexivity.
Qed.

(* ===================================================================== *)
(** ** Withdrawals only take *)
(* ===================================================================== *)

Lemma withdrawal_lowers_by_at_most_its_amount (w : World Mongo) ev addr b :
  is_withdrawal ev = true →
  0 <= event_amount ev →
  balance_at w addr = Some b →
  ∃ b', balance_at (deliver w ev) addr = Some b' ∧ b' <= b ∧ b - b' <= event_amount ev.
Proof.
  intros Hev Ha Hb. unfold balance_at in *.
  destruct (deliver_cases w ev) as [[-> _]|(nb & -> & _ & Hwr)].
  { exists b. split; [exact Hb|]. lia. }
  destruct ev as [u a e|u a e]; [discriminate|].
  destruct Hwr as (bal0 & b0 & Hbal0 & Hnum0 & Hle & ->). simpl in *.
  destruct (decide (Js.toLowerCase u = addr)) as [<-|Hne].
  - rewrite Hbal0 in Hb. simpl in Hb. rewrite Hnum0 in Hb. injection Hb as <-.
    exists (b0 - a). rewrite lookup_insert_eq. simpl.
    split; [apply BigNumber_from_toString|]. lia.
  - exists b. rewrite lookup_insert_ne by done. split; [exact Hb|]. lia.
Qed.

(** X11: withdrawals only take.  After any sequence of withdrawals with
    amounts that are not negative, whatever the store does, an account
    whose balance read as [b] still has a readable balance, it is at most
    [b], and it is lower than [b] by no more than the amounts add up to. *)
Theorem withdrawals_never_raise_a_balance
    (evs : list ContractEvent) (w : World Mongo) (addr : string) (b : Z) :
  forallb is_withdrawal evs = true →
  Forall (λ ev, 0 <= event_amount ev) evs →
  balance_at w addr = Some b →
  ∃ b', balance_at (deliver_all evs w) addr = Some b' ∧
        b' <= b ∧
        b - b' <= foldr Z.add 0 (map event_amount evs).
Proof.
  intros Hkind Hamt. revert w b Hkind.
  induction Hamt as [|ev evs Ha _ IH]; intros w b Hkind Hb.
  - exists b. split; [exact Hb|]. simpl. lia.
  - simpl in Hkind. apply andb_prop in Hkind as [Hev Hevs].
    destruct (withdrawal_lowers_by_at_most_its_amount w ev addr b Hev Ha Hb)
      as (b1 & Hb1 & Hle1 & Hd1).
    destruct (IH (deliver w ev) b1 Hevs Hb1) as (b' & Hb' & Hle' & Hd').
    exists b'. rewrite deliver_all_cons. split; [exact Hb'|]. simpl. lia.
Qed.

Lemma withdrawals_never_raise_a_balance_witness :
  let evs := [WithdrawalProcessed "0xABC" 40 ev0; WithdrawalProcessed "0xabc" 70 ev1;
              WithdrawalProcessed "0xAbC" 10 ev1] in
  let w := world0 {["0xabc" := "100"]} [false; false; false; false; true] in
  ∃ b', balance_at (deliver_all evs w) "0xabc" = Some b' ∧
        b' <= 100 ∧
        100 - b' <= foldr Z.add 0 (map event_amount evs).
Proof.
  apply (withdrawals_never_raise_a_balance
           [WithdrawalProcessed "0xABC" 40 ev0; WithdrawalProcessed "0xabc" 70 ev1;
            WithdrawalProcessed "0xAbC" 10 ev1]
           (world0 {["0xabc" := "100"]} [false; false; false; false; true]) "0xabc" 100);
    [reflexivity | repeat constructor; simpl; lia | reflexivity].
Defined.
